(** * NEQR pixel encoding and the quantum Chen-Wu (2,3) sharing circuit

    A shallow embedding of [neqr_implementation.py] and [quantum_chen_wu.py].
    Circuits are the gate lists the Python code appends to a
    [QuantumCircuit]; the methods of the circuit library that the code calls
    ([x], [h], [cx], [measure], [compose]) are functions on that record which
    can raise, and the simulator is an interpreter of the four gates on
    basis states. *)

From Stdlib Require Import String Ascii ZArith List Bool Arith Lia.
Import ListNotations.

Local Open Scope string_scope.
Local Open Scope list_scope.
Local Open Scope Z_scope.

(** ** Exceptions and fallible computations *)

Inductive exn : Type :=
| CircuitError      (* raised by the circuit library: bad index, size or duplicate *)
| ValueError        (* raised by Python's int() on an unparsable literal *)
| IndexError        (* raised by list indexing *)
| OutOfRangeError.  (* the range failure named by the specification *)

Inductive result (A : Type) : Type :=
| Ok (a : A)
| Raise (e : exn).

Arguments Ok {A} a.
Arguments Raise {A} e.

Definition bind {A B : Type} (m : result A) (k : A -> result B) : result B :=
  match m with
  | Ok a => k a
  | Raise e => Raise e
  end.

Notation "v <- m ;; k" := (bind m (fun v => k))
  (at level 61, m at next level, right associativity).

Notation "' p <- m ;; k" := (bind m (fun x => match x with p => k end))
  (at level 61, p pattern, m at next level, right associativity).

Fixpoint mapM {A B : Type} (f : A -> result B) (l : list A) : result (list B) :=
  match l with
  | [] => Ok []
  | a :: l' => b <- f a ;; bs <- mapM f l' ;; Ok (b :: bs)
  end.

(** [for a in l: st = body(a, st)], stopping at the first exception. *)
Fixpoint foreach {A S : Type} (l : list A) (body : A -> S -> result S) (st : S)
  : result S :=
  match l with
  | [] => Ok st
  | a :: l' => st' <- body a st ;; foreach l' body st'
  end.

(** Python's [range(n)] and [enumerate(l)]. *)
Definition range (n : nat) : list nat := seq 0 n.

Definition enumerate {A : Type} (l : list A) : list (nat * A) :=
  combine (seq 0 (List.length l)) l.

(** ** Python's [format(v, '08b')]

    Binary digits of the magnitude, most significant first; a minus sign for
    a negative value; zeros between sign and digits up to a total width of
    eight.  A value that needs more than eight characters is not cut. *)

Fixpoint bin_pos (p : positive) (acc : string) : string :=
  match p with
  | xH => String "1" acc
  | xO p' => bin_pos p' (String "0" acc)
  | xI p' => bin_pos p' (String "1" acc)
  end.

Definition bin_digits (v : Z) : string :=
  match v with
  | Z0 => "0"
  | Zpos p => bin_pos p ""
  | Zneg p => bin_pos p ""
  end.

Fixpoint zeros (n : nat) : string :=
  match n with
  | O => ""
  | S n' => String "0" (zeros n')
  end.

Definition format_08b (v : Z) : string :=
  let sign := if v <? 0 then "-" else "" in
  let digits := bin_digits v in
  (sign ++ zeros (8 - String.length sign - String.length digits) ++ digits)%string.

Definition reversed (s : string) : list ascii := rev (list_ascii_of_string s).

(** ** Circuits *)

Record QuantumRegister : Type := { qsize : nat; qname : string }.
Record ClassicalRegister : Type := { csize : nat; cname : string }.

(** A bit is identified by its register and its index there. *)
Record Qubit : Type := { qreg : string; qidx : nat }.
Record Clbit : Type := { creg : string; cidx : nat }.

Definition Qubit_eqb (a b : Qubit) : bool :=
  String.eqb (qreg a) (qreg b) && Nat.eqb (qidx a) (qidx b).

Definition Clbit_eqb (a b : Clbit) : bool :=
  String.eqb (creg a) (creg b) && Nat.eqb (cidx a) (cidx b).

Inductive Instruction : Type :=
| XGate (q : Qubit)              (* SET: unconditional bit flip *)
| HGate (q : Qubit)              (* RANDOMIZE: Hadamard *)
| CXGate (c t : Qubit)           (* XOR(src, dst): controlled NOT *)
| Measure (q : Qubit) (c : Clbit).

Record QuantumCircuit : Type :=
  { qregs : list QuantumRegister;
    cregs : list ClassicalRegister;
    data : list Instruction }.

(** [r[i]] and [r[a:b]] on registers. *)
Definition qgetitem (r : QuantumRegister) (i : nat) : Qubit :=
  {| qreg := qname r; qidx := i |}.

Definition cgetitem (r : ClassicalRegister) (i : nat) : Clbit :=
  {| creg := cname r; cidx := i |}.

Definition qbits_of (r : QuantumRegister) : list Qubit :=
  map (qgetitem r) (range (qsize r)).

Definition cbits_of (r : ClassicalRegister) : list Clbit :=
  map (cgetitem r) (range (csize r)).

(** Python slicing [l[a:b]] for [0 <= a <= b]: positions past the end are
    dropped without an error. *)
Definition slice {A : Type} (l : list A) (a b : nat) : list A :=
  firstn (b - a) (skipn a l).

Definition cslice (r : ClassicalRegister) (a b : nat) : list Clbit :=
  slice (cbits_of r) a b.

Definition qubits (qc : QuantumCircuit) : list Qubit :=
  flat_map qbits_of (qregs qc).

Definition clbits (qc : QuantumCircuit) : list Clbit :=
  flat_map cbits_of (cregs qc).

Definition num_qubits (qc : QuantumCircuit) : nat := List.length (qubits qc).
Definition num_clbits (qc : QuantumCircuit) : nat := List.length (clbits qc).

(** [QuantumCircuit(n, m)]: one anonymous register of each kind. *)
Definition QuantumCircuit_of_sizes (n m : nat) : QuantumCircuit :=
  {| qregs := [ {| qsize := n; qname := "q" |} ];
     cregs := [ {| csize := m; cname := "c" |} ];
     data := [] |}.

(** [QuantumCircuit(r1, ..., rk, c)]. *)
Definition QuantumCircuit_of_regs (qs : list QuantumRegister)
  (cs : list ClassicalRegister) : QuantumCircuit :=
  {| qregs := qs; cregs := cs; data := [] |}.

Definition append (qc : QuantumCircuit) (ins : Instruction) : QuantumCircuit :=
  {| qregs := qregs qc; cregs := cregs qc; data := data qc ++ [ins] |}.

Definition extend (qc : QuantumCircuit) (l : list Instruction) : QuantumCircuit :=
  fold_left append l qc.

(** *** Argument conversion

    The gate methods accept an integer index, a bit, a register or a list
    of those; each is resolved to the list of bits it denotes, and an index
    or a bit that the circuit does not have raises [CircuitError]. *)

Class QubitSpecifier (A : Type) : Type :=
  qbit_argument_conversion : QuantumCircuit -> A -> result (list Qubit).

Class ClbitSpecifier (A : Type) : Type :=
  cbit_argument_conversion : QuantumCircuit -> A -> result (list Clbit).

#[export] Instance int_qubit : QubitSpecifier nat :=
  fun qc i =>
    match nth_error (qubits qc) i with
    | Some q => Ok [q]
    | None => Raise CircuitError
    end.

#[export] Instance bit_qubit : QubitSpecifier Qubit :=
  fun qc q =>
    if existsb (Qubit_eqb q) (qubits qc) then Ok [q] else Raise CircuitError.

#[export] Instance reg_qubit : QubitSpecifier QuantumRegister :=
  fun qc r =>
    if forallb (fun q => existsb (Qubit_eqb q) (qubits qc)) (qbits_of r)
    then Ok (qbits_of r) else Raise CircuitError.

#[export] Instance list_qubit {A : Type} `{QubitSpecifier A}
  : QubitSpecifier (list A) :=
  fun qc l => qss <- mapM (qbit_argument_conversion qc) l ;; Ok (List.concat qss).

#[export] Instance int_clbit : ClbitSpecifier nat :=
  fun qc i =>
    match nth_error (clbits qc) i with
    | Some c => Ok [c]
    | None => Raise CircuitError
    end.

#[export] Instance bit_clbit : ClbitSpecifier Clbit :=
  fun qc c =>
    if existsb (Clbit_eqb c) (clbits qc) then Ok [c] else Raise CircuitError.

#[export] Instance list_clbit {A : Type} `{ClbitSpecifier A}
  : ClbitSpecifier (list A) :=
  fun qc l => css <- mapM (cbit_argument_conversion qc) l ;; Ok (List.concat css).

(** *** Gate methods *)

Definition x {A : Type} `{QubitSpecifier A} (qc : QuantumCircuit) (qarg : A)
  : result QuantumCircuit :=
  qs <- qbit_argument_conversion qc qarg ;;
  Ok (extend qc (map XGate qs)).

Definition h {A : Type} `{QubitSpecifier A} (qc : QuantumCircuit) (qarg : A)
  : result QuantumCircuit :=
  qs <- qbit_argument_conversion qc qarg ;;
  Ok (extend qc (map HGate qs)).

(** Two arguments of equal length are paired position by position; a single
    bit on one side is paired with every bit of the other.  A gate whose
    control and target coincide is refused. *)
Definition broadcast {A B : Type} (l1 : list A) (l2 : list B)
  : result (list (A * B)) :=
  if Nat.eqb (List.length l1) (List.length l2) then Ok (combine l1 l2)
  else match l1, l2 with
       | [a], _ => Ok (map (fun b => (a, b)) l2)
       | _, [b] => Ok (map (fun a => (a, b)) l1)
       | _, _ => Raise CircuitError
       end.

Definition cx {A B : Type} `{QubitSpecifier A} `{QubitSpecifier B}
  (qc : QuantumCircuit) (control : A) (target : B) : result QuantumCircuit :=
  cs <- qbit_argument_conversion qc control ;;
  ts <- qbit_argument_conversion qc target ;;
  ps <- broadcast cs ts ;;
  if existsb (fun p => Qubit_eqb (fst p) (snd p)) ps then Raise CircuitError
  else Ok (extend qc (map (fun p => CXGate (fst p) (snd p)) ps)).

Definition measure_broadcast (qs : list Qubit) (cs : list Clbit)
  : result (list (Qubit * Clbit)) :=
  if Nat.eqb (List.length qs) (List.length cs) then Ok (combine qs cs)
  else match qs, cs with
       | [q], _ :: _ => Ok (map (fun c => (q, c)) cs)
       | _, _ => Raise CircuitError
       end.

Definition measure {A B : Type} `{QubitSpecifier A} `{ClbitSpecifier B}
  (qc : QuantumCircuit) (qarg : A) (carg : B) : result QuantumCircuit :=
  qs <- qbit_argument_conversion qc qarg ;;
  cs <- cbit_argument_conversion qc carg ;;
  ps <- measure_broadcast qs cs ;;
  Ok (extend qc (map (fun p => Measure (fst p) (snd p)) ps)).

(** Whether a list of qubits names one of them twice. *)
Fixpoint has_duplicates (l : list Qubit) : bool :=
  match l with
  | [] => false
  | q :: l' => existsb (Qubit_eqb q) l' || has_duplicates l'
  end.

(** The image of a bit under a table of pairs; a bit without an entry is
    kept. *)
Definition remap {K : Type} (eqb : K -> K -> bool) (table : list (K * K)) (k : K)
  : K :=
  match find (fun p => eqb (fst p) k) table with
  | Some p => snd p
  | None => k
  end.

Definition map_instruction (fq : Qubit -> Qubit) (fc : Clbit -> Clbit)
  (ins : Instruction) : Instruction :=
  match ins with
  | XGate q => XGate (fq q)
  | HGate q => HGate (fq q)
  | CXGate c t => CXGate (fq c) (fq t)
  | Measure q c => Measure (fq q) (fc c)
  end.

(** [qc.compose(other, qubits=..., inplace=True)]: the instructions of
    [other] are appended with its i-th qubit replaced by the i-th given
    qubit, and its i-th classical bit by the i-th classical bit of [qc].
    A circuit with more bits than [qc], a wrong number of given qubits or a
    qubit given twice is refused. *)
Definition compose {A : Type} `{QubitSpecifier A}
  (qc other : QuantumCircuit) (qubits_arg : A) : result QuantumCircuit :=
  if (num_qubits qc <? num_qubits other)%nat
     || (num_clbits qc <? num_clbits other)%nat
  then Raise CircuitError
  else
    qs <- qbit_argument_conversion qc qubits_arg ;;
    if negb (Nat.eqb (List.length qs) (num_qubits other)) || has_duplicates qs
    then Raise CircuitError
    else
      let fq := remap Qubit_eqb (combine (qubits other) qs) in
      let fc := remap Clbit_eqb (combine (clbits other) (clbits qc)) in
      Ok (extend qc (map (map_instruction fq fc) (data other))).

(** ** The simulator

    One shot runs the gate list from the all-zero state.  Every cell stays
    in a basis state except between a Hadamard and its measurement; a cell
    that received a Hadamard is afterwards only a source of XOR and
    measured, so its measured value is one fair coin, and the interpreter
    takes the realised value of that coin from an oracle. *)

Definition bitstring : Type := list bool.

Definition oracle : Type := Qubit -> bool.

Record machine : Type :=
  { cells : Qubit -> bool;
    memory : Clbit -> bool }.

Definition reset : machine :=
  {| cells := fun _ => false; memory := fun _ => false |}.

Definition set_cell (m : machine) (q : Qubit) (b : bool) : machine :=
  {| cells := fun q' => if Qubit_eqb q' q then b else cells m q';
     memory := memory m |}.

Definition set_memory (m : machine) (c : Clbit) (b : bool) : machine :=
  {| cells := cells m;
     memory := fun c' => if Clbit_eqb c' c then b else memory m c' |}.

Definition exec_instruction (rnd : oracle) (m : machine) (ins : Instruction)
  : machine :=
  match ins with
  | XGate q => set_cell m q (negb (cells m q))
  | HGate q => set_cell m q (rnd q)
  | CXGate c t => set_cell m t (xorb (cells m t) (cells m c))
  | Measure q c => set_memory m c (cells m q)
  end.

Definition execute (rnd : oracle) (qc : QuantumCircuit) : machine :=
  fold_left (exec_instruction rnd) (data qc) reset.

(** The key under which a shot is counted: the classical bits as a string
    of binary digits, the last classical bit leftmost ([true] is the digit
    1). *)
Definition shot (rnd : oracle) (qc : QuantumCircuit) : bitstring :=
  rev (map (memory (execute rnd qc)) (clbits qc)).

Definition bitstring_eqb (a b : bitstring) : bool :=
  Nat.eqb (List.length a) (List.length b)
  && forallb (fun p => Bool.eqb (fst p) (snd p)) (combine a b).

Definition counts : Type := list (bitstring * nat).

Fixpoint tally (key : bitstring) (cnt : counts) : counts :=
  match cnt with
  | [] => [(key, 1%nat)]
  | (k, n) :: rest =>
      if bitstring_eqb k key then (k, S n) :: rest else (k, n) :: tally key rest
  end.

(** [simulator.run(circuit, shots=shots).result().get_counts()]; shot [k]
    draws its coins from [rnd k]. *)
Definition get_counts (rnd : nat -> oracle) (qc : QuantumCircuit) (shots : nat)
  : counts :=
  fold_left (fun cnt k => tally (shot (rnd k) qc) cnt) (range shots) [].

(** [list(counts.keys())[0]]. *)
Definition first_key (cnt : counts) : result bitstring :=
  match cnt with
  | [] => Raise IndexError
  | (k, _) :: _ => Ok k
  end.

(** Python's [int(s, 2)] on a string of binary digits: the empty string is
    refused, any other length is read most significant digit first. *)
Definition int_base2 (s : bitstring) : result Z :=
  match s with
  | [] => Raise ValueError
  | _ => Ok (fold_left (fun acc (d : bool) => 2 * acc + (if d then 1 else 0)) s 0)
  end.

(** ** neqr_implementation.py *)

Module NEQR_Processor.

Definition encode_pixel_intensity (intensity_value : Z)
  : result QuantumCircuit :=
  let num_qubits := 8%nat in
  let qc := QuantumCircuit_of_sizes num_qubits num_qubits in
  let binary_string := format_08b intensity_value in
  qc <- foreach (enumerate (reversed binary_string))
          (fun '(i, bit) qc =>
             if Ascii.eqb bit "1" then x qc i else Ok qc)
          qc ;;
  measure qc (range num_qubits) (range num_qubits).

Definition run_simulation (rnd : nat -> oracle) (circuit : QuantumCircuit)
  (shots : nat) : counts :=
  get_counts rnd circuit shots.

(** The verification of the [__main__] block: the first key of the counts
    read as a base-2 integer, and whether it equals the sample. *)
Definition main (rnd : nat -> oracle) (sample_pixel : Z) (shots : nat)
  : result (Z * bool) :=
  qc <- encode_pixel_intensity sample_pixel ;;
  let counts := run_simulation rnd qc shots in
  measured_state <- first_key counts ;;
  measured_int <- int_base2 measured_state ;;
  Ok (measured_int, measured_int =? sample_pixel).

End NEQR_Processor.

(** ** quantum_chen_wu.py *)

(** Modelled from the spec: [neqr_encode_pixel] of the module [neqr_basics],
    which [quantum_chen_wu.py] imports and which is not among the sources.
    It is the encoder of section 4.1 as section 4.2 consumes it: an
    intensity outside 0..255 fails with [OutOfRangeError]; the intensity is
    formatted as an 8-digit most-significant-first binary string; for cell
    [i] from 0 to 7 the digit at position [7 - i] is inspected and, when it
    is 1, SET of cell [i] is appended; no measurement is appended, since the
    register is composed into the larger circuit. *)
Definition neqr_encode_pixel (intensity : Z) : result QuantumCircuit :=
  if (0 <=? intensity) && (intensity <=? 255) then
    let natural := format_08b intensity in
    foreach (range 8)
      (fun i qc =>
         match String.get (7 - i) natural with
         | Some "1"%char => x qc i
         | _ => Ok qc
         end)
      (QuantumCircuit_of_regs [ {| qsize := 8; qname := "q" |} ] [])
  else Raise OutOfRangeError.

Record shares : Type :=
  { s0_val : Z; b0_val : Z; sn_val : Z; rec_g0 : Z; rec_g1 : Z }.

Module QuantumChenWu.

Definition build_sharing_circuit (g0_val g1_val : Z) : result QuantumCircuit :=
  let q_g0 := {| qsize := 8; qname := "g0" |} in
  let q_g1 := {| qsize := 8; qname := "g1" |} in
  let q_s0 := {| qsize := 8; qname := "s0" |} in
  let q_b0 := {| qsize := 8; qname := "b0" |} in
  let q_sn := {| qsize := 8; qname := "sn" |} in
  let c_out := {| csize := 24; cname := "measure" |} in
  let qc := QuantumCircuit_of_regs [q_g0; q_g1; q_s0; q_b0; q_sn] [c_out] in
  g0_circ <- neqr_encode_pixel g0_val ;;
  qc <- compose qc g0_circ q_g0 ;;
  g1_circ <- neqr_encode_pixel g1_val ;;
  qc <- compose qc g1_circ q_g1 ;;
  qc <- h qc q_s0 ;;
  qc <- foreach (range 8)
          (fun i qc =>
             qc <- cx qc (qgetitem q_g1 i) (qgetitem q_b0 i) ;;
             cx qc (qgetitem q_s0 i) (qgetitem q_b0 i))
          qc ;;
  qc <- foreach (range 8)
          (fun i qc =>
             qc <- cx qc (qgetitem q_g0 i) (qgetitem q_sn i) ;;
             cx qc (qgetitem q_b0 i) (qgetitem q_sn i))
          qc ;;
  qc <- measure qc q_s0 (cslice c_out 0 8) ;;
  qc <- measure qc q_b0 (cslice c_out 8 16) ;;
  measure qc q_sn (cslice c_out 16 24).

Definition run_simulation (rnd : nat -> oracle) (circuit : QuantumCircuit)
  : counts :=
  get_counts rnd circuit 1.

(** The outcome split of the [__main__] block: the key reads
    [Sn][B0][S0] from left to right. *)
Definition split_shares (raw_bits : bitstring) : result (Z * Z * Z) :=
  let sn_bits := slice raw_bits 0 8 in
  let b0_bits := slice raw_bits 8 16 in
  let s0_bits := slice raw_bits 16 24 in
  s0_val <- int_base2 s0_bits ;;
  b0_val <- int_base2 b0_bits ;;
  sn_val <- int_base2 sn_bits ;;
  Ok (s0_val, b0_val, sn_val).

Definition main (rnd : nat -> oracle) (secret_g0 secret_g1 : Z)
  : result shares :=
  qc <- build_sharing_circuit secret_g0 secret_g1 ;;
  let counts := run_simulation rnd qc in
  raw_bits <- first_key counts ;;
  '(s0_val, b0_val, sn_val) <- split_shares raw_bits ;;
  let rec_g1 := Z.lxor b0_val s0_val in
  let rec_g0 := Z.lxor sn_val b0_val in
  Ok {| s0_val := s0_val; b0_val := b0_val; sn_val := sn_val;
        rec_g0 := rec_g0; rec_g1 := rec_g1 |}.

End QuantumChenWu.

(** ** Reference descriptions

    The gate lists as the design describes them, to be compared with what
    the code appends. *)

Definition q8 : QuantumRegister := {| qsize := 8; qname := "q" |}.
Definition c8 : ClassicalRegister := {| csize := 8; cname := "c" |}.

Definition G0 : QuantumRegister := {| qsize := 8; qname := "g0" |}.
Definition G1 : QuantumRegister := {| qsize := 8; qname := "g1" |}.
Definition S0 : QuantumRegister := {| qsize := 8; qname := "s0" |}.
Definition B0 : QuantumRegister := {| qsize := 8; qname := "b0" |}.
Definition Sn : QuantumRegister := {| qsize := 8; qname := "sn" |}.
Definition c_out : ClassicalRegister := {| csize := 24; cname := "measure" |}.

(** Digit [k] of the natural (most significant first) string is 1. *)
Definition natural_digit_is_1 (v : Z) (k : nat) : bool :=
  match String.get k (format_08b v) with
  | Some c => Ascii.eqb c "1"
  | None => false
  end.

(** Section 4.1: SET of cell [i] exactly when the natural digit at position
    [7 - i] is 1, for [i] from 0 to 7. *)
Definition encoding_subsequence (r : QuantumRegister) (v : Z) : list Instruction :=
  map (fun i => XGate (qgetitem r i))
      (filter (fun i => natural_digit_is_1 v (7 - i)) (range 8)).

(** Section 4.1: then MEASURE of every cell in ascending order. *)
Definition encode_sequence (v : Z) : list Instruction :=
  encoding_subsequence q8 v
  ++ map (fun i => Measure (qgetitem q8 i) (cgetitem c8 i)) (range 8).

(** Section 4.2, steps 3 to 6. *)
Definition randomize_step : list Instruction :=
  map (fun i => HGate (qgetitem S0 i)) (range 8).

Definition b0_step : list Instruction :=
  flat_map (fun i => [ CXGate (qgetitem G1 i) (qgetitem B0 i);
                       CXGate (qgetitem S0 i) (qgetitem B0 i) ]) (range 8).

Definition sn_step : list Instruction :=
  flat_map (fun i => [ CXGate (qgetitem G0 i) (qgetitem Sn i);
                       CXGate (qgetitem B0 i) (qgetitem Sn i) ]) (range 8).

Definition measure_step : list Instruction :=
  map (fun i => Measure (qgetitem S0 i) (cgetitem c_out i)) (range 8)
  ++ map (fun i => Measure (qgetitem B0 i) (cgetitem c_out (8 + i))) (range 8)
  ++ map (fun i => Measure (qgetitem Sn i) (cgetitem c_out (16 + i))) (range 8).

Definition sharing_tail : list Instruction :=
  randomize_step ++ b0_step ++ sn_step ++ measure_step.

Definition sharing_sequence (g0 g1 : Z) : list Instruction :=
  encoding_subsequence G0 g0 ++ encoding_subsequence G1 g1 ++ sharing_tail.

Definition sharing_circuit (d : list Instruction) : QuantumCircuit :=
  {| qregs := [G0; G1; S0; B0; Sn]; cregs := [c_out]; data := d |}.

(** The value of a register-ordered list of bits: element [i] weighs
    [2 ^ i]. *)
Fixpoint bits_to_Z (l : list bool) : Z :=
  match l with
  | [] => 0
  | b :: l' => Z.b2z b + 2 * bits_to_Z l'
  end.

Definition Z_to_bits (v : Z) : list bool :=
  map (fun i => Z.testbit v (Z.of_nat i)) (range 8).

(** The coins that make the randomised register read [s0]. *)
Definition forced_s0 (s0 : Z) : nat -> oracle :=
  fun _ q => Z.testbit s0 (Z.of_nat (qidx q)).

(** What the randomised register reads under the coins of the first shot. *)
Definition realized_s0 (rnd : nat -> oracle) : Z :=
  bits_to_Z (map (fun i => rnd 0%nat (qgetitem S0 i)) (range 8)).

(** ** Decidable equality, for checks by enumeration *)

Definition exn_eq_dec (a b : exn) : {a = b} + {a <> b}.
Proof. decide equality. Defined.

Definition Qubit_eq_dec (a b : Qubit) : {a = b} + {a <> b}.
Proof. decide equality; [apply Nat.eq_dec | apply string_dec]. Defined.

Definition Clbit_eq_dec (a b : Clbit) : {a = b} + {a <> b}.
Proof. decide equality; [apply Nat.eq_dec | apply string_dec]. Defined.

Definition Instruction_eq_dec (a b : Instruction) : {a = b} + {a <> b}.
Proof. decide equality; (apply Qubit_eq_dec || apply Clbit_eq_dec). Defined.

Definition QuantumCircuit_eq_dec (a b : QuantumCircuit) : {a = b} + {a <> b}.
Proof.
  decide equality.
  - apply (list_eq_dec Instruction_eq_dec).
  - apply list_eq_dec. decide equality; [apply string_dec | apply Nat.eq_dec].
  - apply list_eq_dec. decide equality; [apply string_dec | apply Nat.eq_dec].
Defined.

Definition result_eq_dec {A : Type} (dec : forall a b : A, {a = b} + {a <> b})
  (r1 r2 : result A) : {r1 = r2} + {r1 <> r2}.
Proof. decide equality. apply exn_eq_dec. Defined.

Definition same_circuit (r1 r2 : result QuantumCircuit) : bool :=
  if result_eq_dec QuantumCircuit_eq_dec r1 r2 then true else false.

(** ** Auxiliary definitions *)

Import NEQR_Processor.

(** The integers [lo], [lo + 1], ..., [lo + n - 1]. *)
Definition Z_range (lo : Z) (n : nat) : list Z :=
  map (fun k => lo + Z.of_nat k) (seq 0 n).

(** The digits of a positive number, least significant first. *)
Fixpoint lsb_digits (p : positive) : list ascii :=
  match p with
  | xH => [ "1"%char ]
  | xO p' => "0"%char :: lsb_digits p'
  | xI p' => "1"%char :: lsb_digits p'
  end.

(** The body of the encoder's loop. *)
Definition encode_body : nat * ascii -> QuantumCircuit -> result QuantumCircuit :=
  fun '(i, bit) qc => if Ascii.eqb bit "1" then x qc i else Ok qc.

(** The interpreter on a bare gate list. *)
Definition run (rnd : oracle) (l : list Instruction) (m : machine) : machine :=
  fold_left (exec_instruction rnd) l m.

(** The cells after the two encodings. *)
Definition prepared (rnd : oracle) (g0 g1 : Z) : machine :=
  run rnd (encoding_subsequence G1 g1) (run rnd (encoding_subsequence G0 g0) reset).

(** What steps 4 and 5 leave in cell [i] of B0 and of Sn. *)
Definition b0_bit (rnd : oracle) (m : machine) (i : nat) : bool :=
  xorb (xorb (cells m (qgetitem B0 i)) (cells m (qgetitem G1 i)))
       (rnd (qgetitem S0 i)).

Definition sn_bit (rnd : oracle) (m : machine) (i : nat) : bool :=
  xorb (xorb (cells m (qgetitem Sn i)) (cells m (qgetitem G0 i)))
       (b0_bit rnd m i).

(** The SET gates of a gate list, and a gate moved to register [r]. *)
Definition is_set (ins : Instruction) : bool :=
  match ins with XGate _ => true | _ => false end.

(** The cell of the same index in register [r]. *)
Definition onto (r : QuantumRegister) (ins : Instruction) : Instruction :=
  map_instruction (fun q => qgetitem r (qidx q)) (fun c => c) ins.

Definition measured_cells (d : list Instruction) : list Qubit :=
  flat_map (fun ins => match ins with Measure q _ => [q] | _ => [] end) d.

Definition xor_sources (t : Qubit) (d : list Instruction) : list Qubit :=
  flat_map (fun ins => match ins with
                       | CXGate c t' => if Qubit_eqb t' t then [c] else []
                       | _ => []
                       end) d.

Ltac explicit8 l H :=
  do 8 (destruct l as [| ? l]; [discriminate H |]);
  destruct l; [clear H | discriminate H].

(** The number of 1 bits among the low eight bits of a value. *)
Definition popcount (v : Z) : nat :=
  List.length (filter (fun b : bool => b) (Z_to_bits v)).

(** Gate census of a gate list. *)
Definition is_randomize (ins : Instruction) : bool :=
  match ins with HGate _ => true | _ => false end.

Definition is_xor (ins : Instruction) : bool :=
  match ins with CXGate _ _ => true | _ => false end.

Definition is_measure (ins : Instruction) : bool :=
  match ins with Measure _ _ => true | _ => false end.

(** The gates that write cell [q]: a SET or a RANDOMIZE of [q], an XOR with
    destination [q].  A measurement writes a classical bit only. *)
Definition writes (q : Qubit) (ins : Instruction) : bool :=
  match ins with
  | XGate q' => Qubit_eqb q' q
  | HGate q' => Qubit_eqb q' q
  | CXGate _ t => Qubit_eqb t q
  | Measure _ _ => false
  end.

Definition writers (q : Qubit) (d : list Instruction) : list Instruction :=
  filter (writes q) d.


Definition same_gates (a b : list Instruction) : bool :=
  if list_eq_dec Instruction_eq_dec a b then true else false.

(** The classical bits that the measurements of a gate list write, in
    order. *)
Definition measured_bits (d : list Instruction) : list Clbit :=
  flat_map (fun ins => match ins with Measure _ c => [c] | _ => [] end) d.

(** ** Checks by enumeration *)

Lemma same_circuit_eq r1 r2 : same_circuit r1 r2 = true -> r1 = r2.
Proof.
  unfold same_circuit. destruct (result_eq_dec _ r1 r2); [trivial | discriminate].
Qed.

(** Every integer of [lo .. lo + n - 1] passes a Boolean test that the whole
    enumeration passes. *)
Lemma Z_range_forall (P : Z -> bool) (lo : Z) (n : nat) :
  forallb P (Z_range lo n) = true ->
  forall v, lo <= v < lo + Z.of_nat n -> P v = true.
Proof.
  intros Hall v Hv.
  rewrite forallb_forall in Hall. apply Hall.
  unfold Z_range. apply in_map_iff.
  exists (Z.to_nat (v - lo)). split; [lia |].
  apply in_seq. lia.
Qed.

(** ** The binary string *)

Lemma bin_pos_list (p : positive) (acc : string) :
  list_ascii_of_string (bin_pos p acc)
  = rev (lsb_digits p) ++ list_ascii_of_string acc.
Proof.
  revert acc. induction p as [p IH | p IH |]; intro acc; simpl.
  - rewrite IH. simpl. now rewrite <- app_assoc.
  - rewrite IH. simpl. now rewrite <- app_assoc.
  - reflexivity.
Qed.

Lemma bin_pos_length (p : positive) (acc : string) :
  String.length (bin_pos p acc)
  = (List.length (lsb_digits p) + String.length acc)%nat.
Proof.
  revert acc. induction p as [p IH | p IH |]; intro acc; simpl;
    try rewrite IH; simpl; lia.
Qed.

Lemma lsb_digits_bound (p : positive) :
  Zpos p < 2 ^ Z.of_nat (List.length (lsb_digits p)).
Proof.
  induction p as [p IH | p IH |]; cbn [lsb_digits List.length];
    rewrite ?Nat2Z.inj_succ, ?Z.pow_succ_r by lia; lia.
Qed.

Lemma lsb_digits_long (p : positive) :
  256 <= Zpos p -> (9 <= List.length (lsb_digits p))%nat.
Proof.
  intro Hp. pose proof (lsb_digits_bound p) as Hb.
  destruct (le_lt_dec 9 (List.length (lsb_digits p))) as [|Hlt]; [assumption |].
  assert (2 ^ Z.of_nat (List.length (lsb_digits p)) <= 2 ^ 8)
    by (apply Z.pow_le_mono_r; lia).
  change (2 ^ 8) with 256 in *. lia.
Qed.

Lemma lsb_digits_last (p : positive) :
  nth_error (lsb_digits p) (List.length (lsb_digits p) - 1) = Some "1"%char.
Proof.
  induction p as [p IH | p IH |]; cbn [lsb_digits List.length]; try reflexivity.
  - destruct (lsb_digits p) eqn:E; [destruct p; discriminate |].
    cbn [List.length] in *. replace (S (S (List.length l)) - 1)%nat
      with (S (S (List.length l) - 1)) by lia. exact IH.
  - destruct (lsb_digits p) eqn:E; [destruct p; discriminate |].
    cbn [List.length] in *. replace (S (S (List.length l)) - 1)%nat
      with (S (S (List.length l) - 1)) by lia. exact IH.
Qed.

(** A value of nine binary digits or more is neither padded nor cut, so
    the reversed string starts with its digits, least significant first. *)
Lemma reversed_format_wide (v : Z) :
  256 <= Z.abs v ->
  exists p tl, (9 <= List.length (lsb_digits p))%nat
               /\ reversed (format_08b v) = lsb_digits p ++ tl.
Proof.
  intro Hv. destruct v as [| p | p]; [simpl in Hv; lia | |].
  - exists p, []. pose proof (lsb_digits_long p Hv) as Hl. split; [exact Hl |].
    unfold reversed, format_08b. cbn [Z.ltb Z.compare bin_digits].
    rewrite bin_pos_length. cbn [String.length].
    replace (8 - 0 - (List.length (lsb_digits p) + 0))%nat with 0%nat by lia.
    cbn [zeros String.append]. rewrite bin_pos_list. cbn [list_ascii_of_string].
    now rewrite !app_nil_r, rev_involutive.
  - exists p, [ "-"%char ]. pose proof (lsb_digits_long p Hv) as Hl.
    split; [exact Hl |].
    unfold reversed, format_08b. cbn [Z.ltb Z.compare bin_digits].
    rewrite bin_pos_length. cbn [String.length].
    replace (8 - 1 - (List.length (lsb_digits p) + 0))%nat with 0%nat by lia.
    cbn [zeros String.append]. cbn [list_ascii_of_string].
    rewrite bin_pos_list. cbn [list_ascii_of_string].
    rewrite app_nil_r. cbn [rev]. now rewrite rev_involutive.
Qed.

(** ** The circuit methods on a circuit of known registers *)

Lemma extend_data (qc : QuantumCircuit) (l : list Instruction) :
  extend qc l
  = {| qregs := qregs qc; cregs := cregs qc; data := data qc ++ l |}.
Proof.
  unfold extend. revert qc.
  induction l as [| a l IH]; intro qc; cbn [fold_left].
  - rewrite app_nil_r. now destruct qc.
  - rewrite IH. cbn [append qregs cregs data]. now rewrite <- app_assoc.
Qed.

Lemma x_q8 (qc : QuantumCircuit) (i : nat) :
  qregs qc = [q8] ->
  x qc i = if (i <? 8)%nat
           then Ok {| qregs := qregs qc; cregs := cregs qc;
                      data := data qc ++ [XGate (qgetitem q8 i)] |}
           else Raise CircuitError.
Proof.
  intro Hq. unfold x.
  unfold qbit_argument_conversion, int_qubit, qubits. rewrite Hq.
  do 8 (destruct i as [| i];
        [cbn; unfold append; rewrite ?Hq; reflexivity |]).
  destruct i; reflexivity.
Qed.

(** The loop raises as soon as a digit 1 sits at a position that is not a
    cell of the register. *)
Lemma encode_loop_raises (l : list ascii) :
  forall (k : nat) (qc : QuantumCircuit),
    qregs qc = [q8] ->
    (exists j, nth_error l j = Some "1"%char /\ (8 <= k + j)%nat) ->
    foreach (combine (seq k (List.length l)) l) encode_body qc
    = Raise CircuitError.
Proof.
  induction l as [| bit l IH]; intros k qc Hq [j [Hj Hk]].
  - destruct j; discriminate.
  - cbn [List.length seq combine foreach encode_body].
    destruct j as [| j].
    + cbn in Hj. injection Hj as ->. cbn [Ascii.eqb Bool.eqb].
      change (Ascii.eqb "1" "1") with true. cbv iota.
      rewrite (x_q8 qc k Hq).
      replace (k <? 8)%nat with false by (symmetry; apply Nat.ltb_ge; lia).
      reflexivity.
    + cbn in Hj.
      assert (Hrest : forall qc', qregs qc' = [q8] ->
                foreach (combine (seq (S k) (List.length l)) l) encode_body qc'
                = Raise CircuitError).
      { intros qc' Hq'. apply IH; [exact Hq' |]. exists j. split; [exact Hj | lia]. }
      destruct (Ascii.eqb bit "1").
      * rewrite (x_q8 qc k Hq). destruct (k <? 8)%nat; cbn [bind].
        -- apply Hrest. exact Hq.
        -- reflexivity.
      * cbn [bind]. apply Hrest. exact Hq.
Qed.

Lemma encode_pixel_intensity_wide (v : Z) :
  256 <= Z.abs v -> encode_pixel_intensity v = Raise CircuitError.
Proof.
  intro Hv. destruct (reversed_format_wide v Hv) as [p [tl [Hlen Hrev]]].
  unfold encode_pixel_intensity. cbv zeta.
  change (fun '(i, bit) qc => if Ascii.eqb bit "1" then x qc i else Ok qc)
    with encode_body.
  unfold enumerate. rewrite encode_loop_raises; [reflexivity | reflexivity |].
  exists (List.length (lsb_digits p) - 1)%nat. split; [| lia].
  rewrite Hrev. rewrite nth_error_app1 by lia. apply lsb_digits_last.
Qed.

Lemma encode_pixel_intensity_in_range (v : Z) :
  0 <= v <= 255 ->
  encode_pixel_intensity v
  = Ok {| qregs := [q8]; cregs := [c8]; data := encode_sequence v |}.
Proof.
  intro Hv. apply same_circuit_eq.
  apply (Z_range_forall
           (fun v => same_circuit (encode_pixel_intensity v)
                       (Ok {| qregs := [q8]; cregs := [c8];
                              data := encode_sequence v |})) 0 256).
  - vm_compute. reflexivity.
  - lia.
Qed.

Lemma encode_pixel_intensity_negative (v : Z) :
  -255 <= v <= -1 ->
  encode_pixel_intensity v = encode_pixel_intensity (- v).
Proof.
  intro Hv. apply same_circuit_eq.
  apply (Z_range_forall
           (fun v => same_circuit (encode_pixel_intensity v)
                       (encode_pixel_intensity (- v))) (-255) 255).
  - vm_compute. reflexivity.
  - lia.
Qed.

(** ** The sharing circuit, gate by gate *)

Lemma neqr_encode_pixel_in_range (v : Z) :
  0 <= v <= 255 ->
  neqr_encode_pixel v
  = Ok {| qregs := [q8]; cregs := []; data := encoding_subsequence q8 v |}.
Proof.
  intro Hv. apply same_circuit_eq.
  apply (Z_range_forall
           (fun v => same_circuit (neqr_encode_pixel v)
                       (Ok {| qregs := [q8]; cregs := [];
                              data := encoding_subsequence q8 v |})) 0 256).
  - vm_compute. reflexivity.
  - lia.
Qed.

Lemma filter_range_lt (P : nat -> bool) (n i : nat) :
  In i (filter P (range n)) -> (i < n)%nat.
Proof.
  intro Hi. apply filter_In in Hi. destruct Hi as [Hi _].
  apply in_seq in Hi. lia.
Qed.

(** Composing an encoding onto a secret register renames its cells. *)
Lemma compose_encoding (d : list Instruction) (r : QuantumRegister) (v : Z) :
  r = G0 \/ r = G1 ->
  compose (sharing_circuit d)
          {| qregs := [q8]; cregs := []; data := encoding_subsequence q8 v |} r
  = Ok (sharing_circuit (d ++ encoding_subsequence r v)).
Proof.
  intro Hr. unfold compose.
  change (num_qubits (sharing_circuit d)) with 40%nat.
  change (num_clbits (sharing_circuit d)) with 24%nat.
  change (num_qubits {| qregs := [q8]; cregs := [];
                        data := encoding_subsequence q8 v |}) with 8%nat.
  change (num_clbits {| qregs := [q8]; cregs := [];
                        data := encoding_subsequence q8 v |}) with 0%nat.
  cbn [Nat.ltb Nat.leb orb].
  assert (Hconv : qbit_argument_conversion (sharing_circuit d) r = Ok (qbits_of r))
    by (destruct Hr; subst r; reflexivity).
  rewrite Hconv. cbn [bind].
  replace (List.length (qbits_of r)) with 8%nat
    by (destruct Hr; subst r; reflexivity).
  replace (has_duplicates (qbits_of r)) with false
    by (destruct Hr; subst r; reflexivity).
  cbn [Nat.eqb negb orb]. rewrite extend_data.
  unfold sharing_circuit. cbn [qregs cregs data]. do 3 f_equal.
  unfold encoding_subsequence. rewrite map_map.
  apply map_ext_in. intros i Hi. apply filter_range_lt in Hi.
  destruct Hr; subst r;
    do 8 (destruct i as [| i]; [reflexivity |]); lia.
Qed.

Lemma append_sharing (d : list Instruction) (ins : Instruction) :
  append (sharing_circuit d) ins = sharing_circuit (d ++ [ins]).
Proof. reflexivity. Qed.

Lemma build_sharing_circuit_in_range (g0 g1 : Z) :
  0 <= g0 <= 255 -> 0 <= g1 <= 255 ->
  QuantumChenWu.build_sharing_circuit g0 g1
  = Ok (sharing_circuit (sharing_sequence g0 g1)).
Proof.
  intros H0 H1. unfold QuantumChenWu.build_sharing_circuit. cbv zeta.
  rewrite (neqr_encode_pixel_in_range g0 H0). cbn [bind].
  change (QuantumCircuit_of_regs _ _) with (sharing_circuit []).
  change {| qsize := 8; qname := "g0" |} with G0.
  change {| qsize := 8; qname := "g1" |} with G1.
  rewrite (compose_encoding [] G0 g0) by (left; reflexivity). cbn [bind].
  rewrite (neqr_encode_pixel_in_range g1 H1). cbn [bind].
  rewrite (compose_encoding _ G1 g1) by (right; reflexivity). cbn [bind].
  unfold sharing_sequence. cbn [app].
  rewrite (app_assoc (encoding_subsequence G0 g0)).
  generalize (encoding_subsequence G0 g0 ++ encoding_subsequence G1 g1).
  intro d. cbn.
  change {| qregs := [G0; G1; S0; B0; Sn]; cregs := [c_out]; data := d |}
    with (sharing_circuit d).
  rewrite !append_sharing. do 2 f_equal.
  rewrite <- !app_assoc. reflexivity.
Qed.

(** ** Bit lists and integers *)

Lemma horner_rev (l : list bool) :
  fold_left (fun acc (d : bool) => 2 * acc + (if d then 1 else 0)) (rev l) 0
  = bits_to_Z l.
Proof.
  induction l as [| b l IH]; cbn [rev bits_to_Z]; [reflexivity |].
  rewrite fold_left_app. cbn [fold_left]. rewrite IH.
  destruct b; cbn [Z.b2z]; lia.
Qed.

Lemma int_base2_rev (l : list bool) :
  l <> [] -> int_base2 (rev l) = Ok (bits_to_Z l).
Proof.
  intro Hl. unfold int_base2. rewrite horner_rev.
  destruct (rev l) eqn:E; [| reflexivity].
  apply (f_equal (@rev bool)) in E. rewrite rev_involutive in E. now subst l.
Qed.

Lemma bits_to_Z_bound (l : list bool) :
  0 <= bits_to_Z l < 2 ^ Z.of_nat (List.length l).
Proof.
  induction l as [| b l IH]; cbn [bits_to_Z List.length].
  - cbn. lia.
  - rewrite Nat2Z.inj_succ, Z.pow_succ_r by lia. destruct b; cbn [Z.b2z]; lia.
Qed.

Lemma bits_to_Z_testbit (l : list bool) (n : nat) :
  Z.testbit (bits_to_Z l) (Z.of_nat n) = nth n l false.
Proof.
  revert n. induction l as [| b l IH]; intro n; cbn [bits_to_Z].
  - rewrite Z.testbit_0_l. now destruct n.
  - rewrite Z.add_comm. destruct n as [| n].
    + cbn [nth Z.of_nat]. apply Z.testbit_0_r.
    + rewrite Nat2Z.inj_succ, Z.testbit_succ_r by lia. cbn [nth]. apply IH.
Qed.

Lemma lxor_cons (a b : bool) (u w : Z) :
  Z.lxor (Z.b2z a + 2 * u) (Z.b2z b + 2 * w)
  = Z.b2z (xorb a b) + 2 * Z.lxor u w.
Proof.
  apply Z.bits_inj'. intros n Hn.
  rewrite Z.lxor_spec, !(Z.add_comm (Z.b2z _)).
  destruct (Z.eq_dec n 0) as [-> | Hnz].
  - now rewrite !Z.testbit_0_r.
  - replace n with (Z.succ (n - 1)) by lia.
    rewrite !Z.testbit_succ_r by lia. now rewrite Z.lxor_spec.
Qed.

Lemma bits_to_Z_map_xor {A : Type} (f g : A -> bool) (l : list A) :
  bits_to_Z (map (fun i => xorb (f i) (g i)) l)
  = Z.lxor (bits_to_Z (map f l)) (bits_to_Z (map g l)).
Proof.
  induction l as [| a l IH]; cbn [map bits_to_Z]; [reflexivity |].
  now rewrite lxor_cons, IH.
Qed.

Lemma bits_to_Z_to_bits (v : Z) :
  0 <= v <= 255 -> bits_to_Z (Z_to_bits v) = v.
Proof.
  intro Hv. apply Z.eqb_eq.
  apply (Z_range_forall (fun v => bits_to_Z (Z_to_bits v) =? v) 0 256);
    [vm_compute; reflexivity | lia].
Qed.

(** In range, the natural digit at position [7 - i] is bit [i] of the
    value. *)
Lemma natural_digit_testbit (v : Z) (i : nat) :
  0 <= v <= 255 -> (i < 8)%nat ->
  natural_digit_is_1 v (7 - i) = Z.testbit v (Z.of_nat i).
Proof.
  intros Hv Hi.
  assert (Hall : forallb (fun i => Bool.eqb (natural_digit_is_1 v (7 - i))
                                            (Z.testbit v (Z.of_nat i)))
                         (range 8) = true).
  { apply (Z_range_forall
             (fun v => forallb (fun i => Bool.eqb (natural_digit_is_1 v (7 - i))
                                                  (Z.testbit v (Z.of_nat i)))
                               (range 8)) 0 256);
      [vm_compute; reflexivity | lia]. }
  rewrite forallb_forall in Hall. apply eqb_prop. apply Hall.
  apply in_seq. lia.
Qed.

(** ** Running the circuits *)

Section Running.

Variable rnd : oracle.

Lemma Qubit_eqb_spec (a b : Qubit) : Qubit_eqb a b = true <-> a = b.
Proof.
  unfold Qubit_eqb. rewrite andb_true_iff, String.eqb_eq, Nat.eqb_eq.
  destruct a, b; cbn. split; [intros [-> ->]; reflexivity | intro E; now inversion E].
Qed.

(** SET gates on the cells of [r] picked from [l] by [P] flip exactly those
    cells and leave the classical bits alone. *)
Lemma run_set_gates (r : QuantumRegister) (P : nat -> bool)
  (l : list nat) :
  NoDup l ->
  forall m : machine,
    let m' := run rnd (map (fun i => XGate (qgetitem r i)) (filter P l)) m in
    (forall q, cells m' q
               = xorb (cells m q)
                      (String.eqb (qreg q) (qname r)
                       && existsb (Nat.eqb (qidx q)) l && P (qidx q)))
    /\ (forall c, memory m' c = memory m c).
Proof.
  induction 1 as [| a l Ha Hl IH]; intro m; cbn zeta.
  - split; [| reflexivity]. intro q. cbn. now rewrite andb_false_r, xorb_false_r.
  - cbn [filter]. destruct (P a) eqn:EP.
    + cbn [map run fold_left].
      destruct (IH (exec_instruction rnd m (XGate (qgetitem r a)))) as [IHc IHm].
      fold (run rnd (map (fun i => XGate (qgetitem r i)) (filter P l))
                (exec_instruction rnd m (XGate (qgetitem r a)))).
      split; [| intro c; rewrite IHm; reflexivity].
      intro q. rewrite IHc. cbn [exec_instruction set_cell cells existsb].
      destruct (Qubit_eqb q (qgetitem r a)) eqn:Eq.
      * apply Qubit_eqb_spec in Eq. subst q. cbn [qgetitem qreg qidx].
        rewrite String.eqb_refl, Nat.eqb_refl, EP.
        replace (existsb (Nat.eqb a) l) with false.
        -- cbn. now rewrite xorb_false_r, xorb_true_r.
        -- symmetry. apply not_true_is_false. intro Hex.
           apply existsb_exists in Hex. destruct Hex as [b [Hb Hab]].
           apply Nat.eqb_eq in Hab. now subst b.
      * unfold Qubit_eqb in Eq. cbn [qgetitem qreg qidx] in Eq.
        destruct (String.eqb (qreg q) (qname r)); cbn in Eq |- *; [| reflexivity].
        now rewrite Eq.
    + destruct (IH m) as [IHc IHm]. split; [| exact IHm].
      intro q. unfold run in IHc |- *. rewrite IHc. cbn [existsb]. f_equal.
      destruct (Nat.eqb (qidx q) a) eqn:Ea; [| reflexivity].
      apply Nat.eqb_eq in Ea. rewrite Ea, EP. cbn.
      now rewrite !andb_false_r.
Qed.

(** Steps 3 to 6 from any state of the cells. *)
Lemma run_sharing_tail (m : machine) :
  map (memory (run rnd sharing_tail m)) (cbits_of c_out)
  = map (fun i => rnd (qgetitem S0 i)) (range 8)
    ++ map (b0_bit rnd m) (range 8)
    ++ map (sn_bit rnd m) (range 8).
Proof. reflexivity. Qed.

Lemma prepared_cells (g0 g1 : Z) (q : Qubit) :
  cells (prepared rnd g0 g1) q
  = xorb (String.eqb (qreg q) "g0" && existsb (Nat.eqb (qidx q)) (range 8)
          && natural_digit_is_1 g0 (7 - qidx q))
         (String.eqb (qreg q) "g1" && existsb (Nat.eqb (qidx q)) (range 8)
          && natural_digit_is_1 g1 (7 - qidx q)).
Proof.
  unfold prepared, encoding_subsequence.
  destruct (run_set_gates G1 (fun i => natural_digit_is_1 g1 (7 - i))
              (range 8) (seq_NoDup 8 0)
              (run rnd (map (fun i => XGate (qgetitem G0 i))
                            (filter (fun i => natural_digit_is_1 g0 (7 - i))
                                    (range 8))) reset)) as [H1 _].
  destruct (run_set_gates G0 (fun i => natural_digit_is_1 g0 (7 - i))
              (range 8) (seq_NoDup 8 0) reset) as [H0 _].
  rewrite H1, H0. reflexivity.
Qed.

Lemma existsb_range (i n : nat) :
  (i < n)%nat -> existsb (Nat.eqb i) (range n) = true.
Proof.
  intro Hi. apply existsb_exists. exists i. split; [apply in_seq; lia |].
  apply Nat.eqb_refl.
Qed.

Lemma run_app3 (a b c : list Instruction) (m : machine) :
  fold_left (exec_instruction rnd) (a ++ b ++ c) m
  = run rnd c (run rnd b (run rnd a m)).
Proof. unfold run. now rewrite !fold_left_app. Qed.

(** The key of one shot of the sharing circuit: the coins, the coins folded
    into the second secret, and that folded into the first. *)
Lemma shot_sharing (g0 g1 : Z) :
  0 <= g0 <= 255 -> 0 <= g1 <= 255 ->
  shot rnd (sharing_circuit (sharing_sequence g0 g1))
  = rev (map (fun i => rnd (qgetitem S0 i)) (range 8)
         ++ map (fun i => xorb (Z.testbit g1 (Z.of_nat i)) (rnd (qgetitem S0 i)))
                (range 8)
         ++ map (fun i => xorb (Z.testbit g0 (Z.of_nat i))
                               (xorb (Z.testbit g1 (Z.of_nat i))
                                     (rnd (qgetitem S0 i))))
                (range 8)).
Proof.
  intros H0 H1. unfold shot, execute, sharing_circuit, clbits.
  cbn [data cregs flat_map]. rewrite app_nil_r.
  unfold sharing_sequence. rewrite run_app3.
  fold (prepared rnd g0 g1). rewrite run_sharing_tail.
  assert (Hb : forall i, (i < 8)%nat ->
             b0_bit rnd (prepared rnd g0 g1) i
             = xorb (Z.testbit g1 (Z.of_nat i)) (rnd (qgetitem S0 i))).
  { intros i Hi. unfold b0_bit. rewrite !prepared_cells.
    cbn [qgetitem qreg qidx qname B0 G1].
    rewrite (existsb_range i 8 Hi), (natural_digit_testbit g1 i H1 Hi).
    reflexivity. }
  assert (Hs : forall i, (i < 8)%nat ->
             sn_bit rnd (prepared rnd g0 g1) i
             = xorb (Z.testbit g0 (Z.of_nat i))
                    (xorb (Z.testbit g1 (Z.of_nat i)) (rnd (qgetitem S0 i)))).
  { intros i Hi. unfold sn_bit. rewrite (Hb i Hi), !prepared_cells.
    cbn [qgetitem qreg qidx qname Sn G0].
    rewrite (existsb_range i 8 Hi), (natural_digit_testbit g0 i H0 Hi).
    cbn. now rewrite xorb_false_r. }
  do 3 f_equal.
  - apply map_ext_in. intros i Hi. apply Hb. apply in_seq in Hi. lia.
  - apply map_ext_in. intros i Hi. apply Hs. apply in_seq in Hi. lia.
Qed.

End Running.

(** ** Reading the outcome *)

Lemma int_base2_value (s : bitstring) :
  s <> [] -> int_base2 s = Ok (bits_to_Z (rev s)).
Proof.
  intro Hs. rewrite <- (rev_involutive s) at 1. apply int_base2_rev.
  intro E. apply (f_equal (@rev bool)) in E. rewrite rev_involutive in E.
  now subst s.
Qed.

(** The split of a 24-bit key reads three register-ordered bytes. *)
Lemma split_shares_rev (l0 l1 l2 : list bool) :
  List.length l0 = 8%nat -> List.length l1 = 8%nat -> List.length l2 = 8%nat ->
  QuantumChenWu.split_shares (rev (l0 ++ l1 ++ l2))
  = Ok (bits_to_Z l0, bits_to_Z l1, bits_to_Z l2).
Proof.
  intros E0 E1 E2. explicit8 l0 E0. explicit8 l1 E1. explicit8 l2 E2.
  unfold QuantumChenWu.split_shares, slice.
  cbn [rev app firstn skipn Nat.sub].
  rewrite !int_base2_value by discriminate.
  reflexivity.
Qed.

Lemma bitstring_eqb_refl (k : bitstring) : bitstring_eqb k k = true.
Proof.
  unfold bitstring_eqb. rewrite Nat.eqb_refl. cbn [andb].
  induction k as [| b k IH]; cbn; [reflexivity |].
  rewrite IH. now destruct b.
Qed.

(** When every shot gives the same key, the counts hold that key alone. *)
Lemma get_counts_single (rnd : nat -> oracle) (qc : QuantumCircuit)
  (k : bitstring) (n : nat) :
  (forall r, shot r qc = k) ->
  get_counts rnd qc (S n) = [(k, S n)].
Proof.
  intro Hk. unfold get_counts, range.
  induction n as [| n IH].
  - cbn. now rewrite Hk.
  - rewrite seq_S, fold_left_app, IH. cbn [fold_left tally Nat.add].
    now rewrite Hk, bitstring_eqb_refl.
Qed.

Lemma length_map_range {A : Type} (f : nat -> A) (n : nat) :
  List.length (map f (range n)) = n.
Proof. unfold range. now rewrite length_map, length_seq. Qed.

(** One run of the sharing program under given coins. *)
Lemma main_sharing (rnd : nat -> oracle) (g0 g1 : Z) :
  0 <= g0 <= 255 -> 0 <= g1 <= 255 ->
  QuantumChenWu.main rnd g0 g1
  = Ok {| s0_val := realized_s0 rnd;
          b0_val := Z.lxor g1 (realized_s0 rnd);
          sn_val := Z.lxor g0 (Z.lxor g1 (realized_s0 rnd));
          rec_g0 := g0;
          rec_g1 := g1 |}.
Proof.
  intros H0 H1. unfold QuantumChenWu.main.
  rewrite (build_sharing_circuit_in_range g0 g1 H0 H1). cbn [bind].
  unfold QuantumChenWu.run_simulation, get_counts.
  cbn [range seq fold_left tally first_key bind].
  rewrite (shot_sharing (rnd 0%nat) g0 g1 H0 H1).
  rewrite split_shares_rev by apply length_map_range. cbn [bind].
  rewrite (bits_to_Z_map_xor (fun i => Z.testbit g0 (Z.of_nat i))).
  rewrite !(bits_to_Z_map_xor (fun i => Z.testbit g1 (Z.of_nat i))).
  fold (Z_to_bits g0) (Z_to_bits g1) (realized_s0 rnd).
  rewrite !bits_to_Z_to_bits by assumption.
  set (s := realized_s0 rnd). f_equal. f_equal.
  - rewrite Z.lxor_assoc, Z.lxor_nilpotent. apply Z.lxor_0_r.
  - rewrite Z.lxor_assoc, Z.lxor_nilpotent. apply Z.lxor_0_r.
Qed.

Lemma realized_forced (s0 : Z) :
  0 <= s0 <= 255 -> realized_s0 (forced_s0 s0) = s0.
Proof.
  intro Hs. unfold realized_s0, forced_s0. cbn [qgetitem qidx].
  fold (Z_to_bits s0). now apply bits_to_Z_to_bits.
Qed.

Lemma realized_range (rnd : nat -> oracle) : 0 <= realized_s0 rnd <= 255.
Proof.
  unfold realized_s0.
  pose proof (bits_to_Z_bound
                (map (fun i => rnd 0%nat (qgetitem S0 i)) (range 8))) as Hb.
  rewrite length_map_range in Hb. change (2 ^ Z.of_nat 8) with 256 in Hb. lia.
Qed.

Lemma bitstring_eqb_eq (a b : bitstring) : bitstring_eqb a b = true -> a = b.
Proof.
  unfold bitstring_eqb. revert b.
  induction a as [| x a IH]; intros [| y b] H; cbn in H; try discriminate.
  - reflexivity.
  - apply andb_true_iff in H. destruct H as [Hl H].
    apply andb_true_iff in H. destruct H as [Hxy H].
    apply eqb_prop in Hxy. subst y. f_equal. apply IH. now rewrite Hl.
Qed.

(** The encoder's circuit has no Hadamard: whatever the coins, a shot reads
    the bits of the intensity. *)
Lemma shot_encode (r : oracle) (v : Z) :
  0 <= v <= 255 ->
  shot r {| qregs := [q8]; cregs := [c8]; data := encode_sequence v |}
  = rev (Z_to_bits v).
Proof.
  intro Hv. apply bitstring_eqb_eq.
  apply (Z_range_forall
           (fun v => bitstring_eqb
                       (shot r {| qregs := [q8]; cregs := [c8];
                                  data := encode_sequence v |})
                       (rev (Z_to_bits v))) 0 256);
    [vm_compute; reflexivity | lia].
Qed.

(** ** The shape of the sharing circuit *)

Lemma in_encoding_subsequence (r : QuantumRegister) (v : Z) (ins : Instruction) :
  In ins (encoding_subsequence r v) ->
  exists i, (i < 8)%nat /\ ins = XGate (qgetitem r i).
Proof.
  unfold encoding_subsequence. intro H. apply in_map_iff in H.
  destruct H as [i [E Hi]]. exists i. split; [| now symmetry].
  now apply filter_range_lt in Hi.
Qed.

Lemma set_part_of_encoding (r : QuantumRegister) (v : Z) :
  map (onto r) (filter is_set (encode_sequence v)) = encoding_subsequence r v.
Proof.
  unfold encode_sequence, encoding_subsequence. rewrite filter_app.
  replace (filter is_set (map (fun i => Measure (qgetitem q8 i) (cgetitem c8 i))
                              (range 8))) with (@nil Instruction)
    by reflexivity.
  rewrite app_nil_r.
  induction (filter (fun i => natural_digit_is_1 v (7 - i)) (range 8))
    as [| i l IH]; cbn [map filter is_set]; [reflexivity |].
  now rewrite IH.
Qed.

Lemma measured_cells_app (a b : list Instruction) :
  measured_cells (a ++ b) = measured_cells a ++ measured_cells b.
Proof. unfold measured_cells. apply flat_map_app. Qed.

Lemma measured_cells_encoding (r : QuantumRegister) (v : Z) :
  measured_cells (encoding_subsequence r v) = [].
Proof.
  unfold encoding_subsequence.
  induction (filter (fun i => natural_digit_is_1 v (7 - i)) (range 8))
    as [| i l IH]; [reflexivity | exact IH].
Qed.

Lemma in_measured_cells (q : Qubit) (c : Clbit) (d : list Instruction) :
  In (Measure q c) d -> In q (measured_cells d).
Proof.
  intro H. unfold measured_cells. apply in_flat_map.
  exists (Measure q c). split; [exact H | now left].
Qed.

Lemma xor_sources_app (t : Qubit) (a b : list Instruction) :
  xor_sources t (a ++ b) = xor_sources t a ++ xor_sources t b.
Proof. unfold xor_sources. apply flat_map_app. Qed.

Lemma xor_sources_encoding (t : Qubit) (r : QuantumRegister) (v : Z) :
  xor_sources t (encoding_subsequence r v) = [].
Proof.
  unfold encoding_subsequence.
  induction (filter (fun i => natural_digit_is_1 v (7 - i)) (range 8))
    as [| i l IH]; [reflexivity | exact IH].
Qed.

(** An element that does not occur in the front part of a list sits in the
    back part, with everything after it. *)
Lemma split_in_back {A : Type} (front back pre post : list A) (a : A) :
  front ++ back = pre ++ a :: post -> ~ In a front ->
  exists mid, back = mid ++ a :: post.
Proof.
  revert pre. induction front as [| f front IH]; intros pre E Hn.
  - exists pre. exact E.
  - destruct pre as [| p pre]; cbn in E; injection E as E1 E2.
    + subst f. exfalso. apply Hn. now left.
    + apply (IH pre E2). intro Hin. apply Hn. now right.
Qed.

Lemma in_xor_steps (c t : Qubit) :
  In (CXGate c t) (b0_step ++ sn_step) ->
  exists i, (i < 8)%nat
            /\ ((c = qgetitem G1 i /\ t = qgetitem B0 i)
                \/ (c = qgetitem S0 i /\ t = qgetitem B0 i)
                \/ (c = qgetitem G0 i /\ t = qgetitem Sn i)
                \/ (c = qgetitem B0 i /\ t = qgetitem Sn i)).
Proof.
  intro H. apply in_app_iff in H. unfold b0_step, sn_step in H.
  rewrite !in_flat_map in H.
  destruct H as [[i [Hi H]] | [i [Hi H]]]; apply in_seq in Hi;
    exists i; (split; [lia |]); cbn in H;
    destruct H as [H | [H | []]]; injection H as <- <-; tauto.
Qed.

Lemma measure_step_only_measures (ins : Instruction) :
  In ins measure_step -> exists q c, ins = Measure q c.
Proof.
  unfold measure_step. rewrite !in_app_iff, !in_map_iff.
  intros [[i [E _]] | [[i [E _]] | [i [E _]]]]; subst ins; eauto.
Qed.

Lemma no_measure_before_measure_step (g0 g1 : Z) (q : Qubit) (c : Clbit) :
  ~ In (Measure q c)
       (encoding_subsequence G0 g0 ++ encoding_subsequence G1 g1
        ++ randomize_step ++ b0_step ++ sn_step).
Proof.
  rewrite !in_app_iff. unfold randomize_step, b0_step, sn_step.
  rewrite in_map_iff, !in_flat_map.
  intros [H | [H | [[i [E _]] | [[i [_ H]] | [i [_ H]]]]]].
  - apply in_encoding_subsequence in H. destruct H as [i [_ E]]. discriminate.
  - apply in_encoding_subsequence in H. destruct H as [i [_ E]]. discriminate.
  - discriminate.
  - cbn in H. destruct H as [H | [H | []]]; discriminate.
  - cbn in H. destruct H as [H | [H | []]]; discriminate.
Qed.

Lemma slice_app {A : Type} (s extra : list A) (a b : nat) :
  (b <= List.length s)%nat -> slice (s ++ extra) a b = slice s a b.
Proof.
  intro Hb. unfold slice. rewrite skipn_app, firstn_app, length_skipn.
  replace (b - a - (List.length s - a))%nat with 0%nat by lia.
  cbn [firstn]. apply app_nil_r.
Qed.

Lemma slice_nonempty {A : Type} (s : list A) (a b : nat) :
  (a < b)%nat -> (a < List.length s)%nat -> slice s a b <> [].
Proof.
  intros Hab Ha E. apply (f_equal (@List.length A)) in E.
  unfold slice in E. rewrite length_firstn, length_skipn in E. cbn in E. lia.
Qed.

Lemma int_base2_zeros (k : nat) (s : bitstring) :
  s <> [] -> int_base2 (repeat false k ++ s) = int_base2 s.
Proof.
  intro Hs. unfold int_base2.
  assert (Hf : fold_left (fun acc (d : bool) => 2 * acc + (if d then 1 else 0))
                 (repeat false k ++ s) 0
               = fold_left (fun acc (d : bool) => 2 * acc + (if d then 1 else 0))
                   s 0).
  { rewrite fold_left_app. f_equal.
    induction k as [| k IH]; [reflexivity | exact IH]. }
  rewrite Hf. destruct s; [contradiction |].
  destruct (repeat false k ++ b :: s) eqn:E; [| reflexivity].
  destruct k; discriminate.
Qed.

(** ** The claims *)

(** C1. For secrets [g0], [g1] in 0..255 the sharing program returns, under
    any coins, shares with [B0 = g1 XOR S0] and [Sn = g0 XOR B0], where [S0]
    is the byte the coins realise; the classical reconstruction
    [b0 XOR s0], [sn XOR b0] gives back [g1] and [g0]; and every byte [s0] of
    0..255 is realised by some coins, with the same identities. *)
Theorem sharing_reconstructs_secrets (g0 g1 : Z) :
  0 <= g0 <= 255 -> 0 <= g1 <= 255 ->
  (forall rnd : nat -> oracle,
      exists sh : shares,
        QuantumChenWu.main rnd g0 g1 = Ok sh
        /\ 0 <= s0_val sh <= 255
        /\ b0_val sh = Z.lxor g1 (s0_val sh)
        /\ sn_val sh = Z.lxor g0 (b0_val sh)
        /\ Z.lxor (b0_val sh) (s0_val sh) = g1
        /\ Z.lxor (sn_val sh) (b0_val sh) = g0
        /\ rec_g1 sh = g1 /\ rec_g0 sh = g0)
  /\ (forall s0 : Z,
         0 <= s0 <= 255 ->
         QuantumChenWu.main (forced_s0 s0) g0 g1
         = Ok {| s0_val := s0;
                 b0_val := Z.lxor g1 s0;
                 sn_val := Z.lxor g0 (Z.lxor g1 s0);
                 rec_g0 := g0;
                 rec_g1 := g1 |}).
Proof.
  intros H0 H1. split.
  - intro rnd. eexists. split; [apply (main_sharing rnd g0 g1 H0 H1) |].
    cbn [s0_val b0_val sn_val rec_g0 rec_g1].
    repeat split; try apply realized_range.
    + now rewrite Z.lxor_assoc, Z.lxor_nilpotent, Z.lxor_0_r.
    + now rewrite Z.lxor_assoc, Z.lxor_nilpotent, Z.lxor_0_r.
  - intros s0 Hs. rewrite (main_sharing _ g0 g1 H0 H1).
    now rewrite (realized_forced s0 Hs).
Qed.

Lemma sharing_reconstructs_secrets_witness :
  0 <= 200 <= 255 /\ 0 <= 55 <= 255
  /\ QuantumChenWu.main (forced_s0 85) 200 55
     = Ok {| s0_val := 85; b0_val := Z.lxor 55 85;
             sn_val := Z.lxor 200 (Z.lxor 55 85);
             rec_g0 := 200; rec_g1 := 55 |}.
Proof.
  split; [lia |]. split; [lia |].
  apply (proj2 (sharing_reconstructs_secrets 200 55 ltac:(lia) ltac:(lia)) 85).
  lia.
Defined.

(** C2. For every intensity [v] of 0..255 the encoder returns a circuit whose
    every shot, whatever the coins, gives one and the same key; the counts
    of any positive number of shots hold that key alone; and reading the key
    as a base-2 integer gives [v]. *)
Theorem encode_decode_roundtrip (v : Z) (rnd : nat -> oracle) (shots : nat) :
  0 <= v <= 255 -> (1 <= shots)%nat ->
  exists (qc : QuantumCircuit) (key : bitstring),
    encode_pixel_intensity v = Ok qc
    /\ (forall r : oracle, shot r qc = key)
    /\ NEQR_Processor.run_simulation rnd qc shots = [(key, shots)]
    /\ int_base2 key = Ok v
    /\ NEQR_Processor.main rnd v shots = Ok (v, true).
Proof.
  intros Hv Hs.
  exists {| qregs := [q8]; cregs := [c8]; data := encode_sequence v |},
         (rev (Z_to_bits v)).
  assert (Hshot : forall r, shot r {| qregs := [q8]; cregs := [c8];
                                      data := encode_sequence v |}
                            = rev (Z_to_bits v))
    by (intro r; now apply shot_encode).
  assert (Hcnt : NEQR_Processor.run_simulation rnd
                   {| qregs := [q8]; cregs := [c8]; data := encode_sequence v |}
                   shots
                 = [(rev (Z_to_bits v), shots)]).
  { destruct shots as [| n]; [lia |].
    unfold NEQR_Processor.run_simulation. now apply get_counts_single. }
  assert (Hint : int_base2 (rev (Z_to_bits v)) = Ok v).
  { rewrite int_base2_rev by discriminate. f_equal. now apply bits_to_Z_to_bits. }
  repeat split; try assumption.
  - now apply encode_pixel_intensity_in_range.
  - unfold NEQR_Processor.main.
    rewrite (encode_pixel_intensity_in_range v Hv). cbn [bind].
    rewrite Hcnt. cbn [first_key bind]. rewrite Hint. cbn [bind].
    now rewrite Z.eqb_refl.
Qed.

Lemma encode_decode_roundtrip_witness :
  0 <= 170 <= 255 /\ (1 <= 64)%nat
  /\ exists (qc : QuantumCircuit) (key : bitstring),
    encode_pixel_intensity 170 = Ok qc
    /\ (forall r : oracle, shot r qc = key)
    /\ NEQR_Processor.run_simulation (fun _ _ => true) qc 64 = [(key, 64%nat)]
    /\ int_base2 key = Ok 170
    /\ NEQR_Processor.main (fun _ _ => true) 170 64 = Ok (170, true).
Proof.
  split; [lia |]. split; [lia |].
  apply (encode_decode_roundtrip 170 (fun _ _ => true) 64); lia.
Defined.

(** C3, as the code has it.  The encoder has no range check of its own: it
    fails, with the circuit's index error, exactly when the magnitude of
    the intensity is 256 or more (the loop then meets a digit 1 at a
    position that is not a cell); an intensity of -255..-1 is not refused
    and gets the gate sequence of its magnitude. *)
Theorem encode_out_of_range (v : Z) :
  (256 <= Z.abs v -> encode_pixel_intensity v = Raise CircuitError)
  /\ (Z.abs v <= 255 ->
      encode_pixel_intensity v
      = Ok {| qregs := [q8]; cregs := [c8];
              data := encode_sequence (Z.abs v) |}).
Proof.
  split.
  - apply encode_pixel_intensity_wide.
  - intro Hv. destruct (Z_lt_le_dec v 0) as [Hneg | Hpos].
    + rewrite encode_pixel_intensity_negative by lia.
      rewrite Z.abs_neq by lia. apply encode_pixel_intensity_in_range. lia.
    + rewrite Z.abs_eq by lia. apply encode_pixel_intensity_in_range. lia.
Qed.

Lemma encode_out_of_range_witness :
  encode_pixel_intensity 256 = Raise CircuitError
  /\ encode_pixel_intensity (-1)
     = Ok {| qregs := [q8]; cregs := [c8]; data := encode_sequence 1 |}.
Proof.
  split.
  - apply (proj1 (encode_out_of_range 256)). cbn. lia.
  - apply (proj2 (encode_out_of_range (-1))). cbn. lia.
Defined.

(** C3 as stated fails: the intensity -1 lies outside 0..255 and the
    encoder returns a circuit for it, the one that sets cell 0. *)
Lemma encode_accepts_minus_one :
  ~ (0 <= -1 <= 255)
  /\ encode_pixel_intensity (-1)
     = Ok {| qregs := [q8]; cregs := [c8];
             data := XGate (qgetitem q8 0)
                     :: map (fun i => Measure (qgetitem q8 i) (cgetitem c8 i))
                            (range 8) |}.
Proof. split; [lia | reflexivity]. Qed.

(** C4. For secrets of 0..255 the sharing circuit is built, and its gates
    are, in this order: the SET gates of the encoding of [g0] on register
    G0, those of [g1] on G1 (each the SET part of what the encoder appends
    for that intensity, cell for cell), one RANDOMIZE per cell of S0, for
    each [i] the pair XOR(G1[i], B0[i]), XOR(S0[i], B0[i]), for each [i] the
    pair XOR(G0[i], Sn[i]), XOR(B0[i], Sn[i]), and the measurements of S0,
    B0, Sn into bits 0-7, 8-15, 16-23 of the one 24-bit classical
    register. *)
Theorem sharing_sequence_order (g0 g1 : Z) :
  0 <= g0 <= 255 -> 0 <= g1 <= 255 ->
  exists (qc e0 e1 : QuantumCircuit),
    QuantumChenWu.build_sharing_circuit g0 g1 = Ok qc
    /\ encode_pixel_intensity g0 = Ok e0
    /\ encode_pixel_intensity g1 = Ok e1
    /\ cregs qc = [ {| csize := 24; cname := "measure" |} ]
    /\ data qc
       = map (onto G0) (filter is_set (data e0))
         ++ map (onto G1) (filter is_set (data e1))
         ++ map (fun i => HGate (qgetitem S0 i)) (range 8)
         ++ flat_map (fun i => [ CXGate (qgetitem G1 i) (qgetitem B0 i);
                                 CXGate (qgetitem S0 i) (qgetitem B0 i) ])
                     (range 8)
         ++ flat_map (fun i => [ CXGate (qgetitem G0 i) (qgetitem Sn i);
                                 CXGate (qgetitem B0 i) (qgetitem Sn i) ])
                     (range 8)
         ++ map (fun i => Measure (qgetitem S0 i) (cgetitem c_out i)) (range 8)
         ++ map (fun i => Measure (qgetitem B0 i) (cgetitem c_out (8 + i)))
                (range 8)
         ++ map (fun i => Measure (qgetitem Sn i) (cgetitem c_out (16 + i)))
                (range 8).
Proof.
  intros H0 H1.
  exists (sharing_circuit (sharing_sequence g0 g1)),
         {| qregs := [q8]; cregs := [c8]; data := encode_sequence g0 |},
         {| qregs := [q8]; cregs := [c8]; data := encode_sequence g1 |}.
  split; [now apply build_sharing_circuit_in_range |].
  split; [now apply encode_pixel_intensity_in_range |].
  split; [now apply encode_pixel_intensity_in_range |].
  split; [reflexivity |].
  cbn [data sharing_circuit]. rewrite !set_part_of_encoding.
  reflexivity.
Qed.

Lemma sharing_sequence_order_witness :
  0 <= 200 <= 255 /\ 0 <= 55 <= 255
  /\ exists qc : QuantumCircuit,
      QuantumChenWu.build_sharing_circuit 200 55 = Ok qc
      /\ firstn 9 (data qc)
         = [ XGate (qgetitem G0 3); XGate (qgetitem G0 6); XGate (qgetitem G0 7);
             XGate (qgetitem G1 0); XGate (qgetitem G1 1); XGate (qgetitem G1 2);
             XGate (qgetitem G1 4); XGate (qgetitem G1 5);
             HGate (qgetitem S0 0) ].
Proof.
  split; [lia |]. split; [lia |].
  destruct (sharing_sequence_order 200 55 ltac:(lia) ltac:(lia))
    as [qc [e0 [e1 [Hqc [He0 [He1 [_ Hd]]]]]]].
  exists qc. split; [exact Hqc |].
  injection He0 as <-. injection He1 as <-. rewrite Hd. reflexivity.
Defined.

(** C5. For every intensity of 0..255 the formatted string has eight
    digits, digit [k] being bit [7 - k] of the value; the encoder returns a
    circuit on one 8-cell register with a classical register of the same
    width; its gates are SET of cell [i], for [i] from 0 to 7, exactly when
    digit [7 - i] is 1, followed by the measurement of every cell [i], in
    ascending order, into classical bit [i]. *)
Theorem encode_follows_digits (v : Z) :
  0 <= v <= 255 ->
  String.length (format_08b v) = 8%nat
  /\ (forall k, (k < 8)%nat ->
                natural_digit_is_1 v k = Z.testbit v (Z.of_nat (7 - k)))
  /\ exists qc : QuantumCircuit,
      encode_pixel_intensity v = Ok qc
      /\ qregs qc = [ {| qsize := 8; qname := "q" |} ]
      /\ cregs qc = [ {| csize := 8; cname := "c" |} ]
      /\ data qc
         = map (fun i => XGate (qgetitem q8 i))
               (filter (fun i => natural_digit_is_1 v (7 - i)) (range 8))
           ++ map (fun i => Measure (qgetitem q8 i) (cgetitem c8 i)) (range 8)
      /\ (forall i, (i < 8)%nat ->
                    (In (XGate (qgetitem q8 i)) (data qc)
                     <-> String.get (7 - i) (format_08b v) = Some "1"%char)).
Proof.
  intro Hv. split; [| split].
  - apply Nat.eqb_eq.
    apply (Z_range_forall
             (fun v => Nat.eqb (String.length (format_08b v)) 8) 0 256);
      [vm_compute; reflexivity | lia].
  - intros k Hk. replace k with (7 - (7 - k))%nat at 1 by lia.
    apply natural_digit_testbit; [exact Hv | lia].
  - exists {| qregs := [q8]; cregs := [c8]; data := encode_sequence v |}.
    split; [now apply encode_pixel_intensity_in_range |].
    split; [reflexivity |]. split; [reflexivity |]. split; [reflexivity |].
    intros i Hi. cbn [data]. unfold encode_sequence, encoding_subsequence.
    rewrite in_app_iff, !in_map_iff. split.
    + intros [[j [E Hj]] | [j [E _]]]; [| discriminate].
      injection E as ->. apply filter_In in Hj. destruct Hj as [_ Hj].
      unfold natural_digit_is_1 in Hj.
      destruct (String.get (7 - i) (format_08b v)) as [c |]; [| discriminate].
      apply Ascii.eqb_eq in Hj. now subst c.
    + intro Hg. left. exists i. split; [reflexivity |].
      apply filter_In. split; [apply in_seq; lia |].
      unfold natural_digit_is_1. now rewrite Hg.
Qed.

Lemma encode_follows_digits_witness :
  0 <= 170 <= 255
  /\ String.length (format_08b 170) = 8%nat
  /\ exists qc : QuantumCircuit,
      encode_pixel_intensity 170 = Ok qc
      /\ data qc
         = map (fun i => XGate (qgetitem q8 i)) [1; 3; 5; 7]%nat
           ++ map (fun i => Measure (qgetitem q8 i) (cgetitem c8 i)) (range 8).
Proof.
  split; [lia |].
  destruct (encode_follows_digits 170 ltac:(lia))
    as [Hl [_ [qc [Hqc [_ [_ [Hd _]]]]]]].
  split; [exact Hl |]. exists qc. split; [exact Hqc |]. rewrite Hd. reflexivity.
Defined.

(** C6. The bit order is the reversed one throughout.  For an intensity of
    0..255 the encoder sets cell [i] exactly when bit [i] of the value,
    counted from the least significant end, is 1, which is digit [7 - i]
    of the natural string.  The key of a shot is the register-ordered
    classical bits reversed, and reading it base 2 gives bit [i] the weight
    [2 ^ i]; so the key of the encoder's circuit reads as the intensity,
    and the three bytes split from a 24-bit key are the register-ordered
    values of bits 0-7, 8-15 and 16-23. *)
Theorem bit_order_is_reversed :
  (forall v : Z, 0 <= v <= 255 ->
     exists qc : QuantumCircuit,
       encode_pixel_intensity v = Ok qc
       /\ (forall i, (i < 8)%nat ->
             natural_digit_is_1 v (7 - i) = Z.testbit v (Z.of_nat i)
             /\ (In (XGate (qgetitem q8 i)) (data qc)
                 <-> Z.testbit v (Z.of_nat i) = true))
       /\ (forall rnd : oracle,
             shot rnd qc = rev (Z_to_bits v)
             /\ int_base2 (shot rnd qc) = Ok v))
  /\ (forall cells_bits : list bool, cells_bits <> [] ->
        int_base2 (rev cells_bits) = Ok (bits_to_Z cells_bits)
        /\ forall i : nat,
            Z.testbit (bits_to_Z cells_bits) (Z.of_nat i) = nth i cells_bits false)
  /\ (forall l0 l1 l2 : list bool,
        List.length l0 = 8%nat -> List.length l1 = 8%nat ->
        List.length l2 = 8%nat ->
        QuantumChenWu.split_shares (rev (l0 ++ l1 ++ l2))
        = Ok (bits_to_Z l0, bits_to_Z l1, bits_to_Z l2)).
Proof.
  split; [| split].
  - intros v Hv.
    exists {| qregs := [q8]; cregs := [c8]; data := encode_sequence v |}.
    split; [now apply encode_pixel_intensity_in_range |]. split.
    + intros i Hi. pose proof (natural_digit_testbit v i Hv Hi) as Hd.
      split; [exact Hd |]. rewrite <- Hd. cbn [data].
      unfold encode_sequence, encoding_subsequence.
      rewrite in_app_iff, !in_map_iff. split.
      * intros [[j [E Hj]] | [j [E _]]]; [| discriminate].
        injection E as ->. now apply filter_In in Hj.
      * intro Hg. left. exists i. split; [reflexivity |].
        apply filter_In. split; [apply in_seq; lia | exact Hg].
    + intro rnd. rewrite (shot_encode rnd v Hv). split; [reflexivity |].
      rewrite int_base2_rev by discriminate. f_equal.
      now apply bits_to_Z_to_bits.
  - intros l Hl. split; [now apply int_base2_rev |].
    intro i. apply bits_to_Z_testbit.
  - apply split_shares_rev.
Qed.

Lemma bit_order_is_reversed_witness :
  0 <= 1 <= 255
  /\ (exists qc : QuantumCircuit,
         encode_pixel_intensity 1 = Ok qc
         /\ In (XGate (qgetitem q8 0)) (data qc))
  /\ int_base2 (rev [true; false; false; false; false; false; false; false])
     = Ok 1.
Proof.
  split; [lia |]. split.
  - destruct (proj1 bit_order_is_reversed 1 ltac:(lia)) as [qc [Hqc [Hi _]]].
    exists qc. split; [exact Hqc |].
    apply (proj2 (Hi 0%nat ltac:(lia))). reflexivity.
  - apply (proj1 (proj2 bit_order_is_reversed)
             [true; false; false; false; false; false; false; false]).
    discriminate.
Defined.

(** C7, as the code has it.  Neither the decoding nor the split checks the
    length of the key.  The decoding reads a key of any positive length as
    its base-2 value, a shorter key exactly as if it were padded with
    zeros on the left, and raises the parse error only on the empty key.
    The split takes positions 0-8, 8-16 and 16-24: a key longer than 24 is
    read as its first 24 positions, a key of 17 positions or more yields
    three values, and a key of at most 16 positions raises the parse error
    because its last slice is empty. *)
Theorem outcome_length_unchecked :
  (forall s : bitstring, s <> [] ->
     int_base2 s = Ok (bits_to_Z (rev s))
     /\ forall k : nat, int_base2 (repeat false k ++ s) = int_base2 s)
  /\ int_base2 [] = Raise ValueError
  /\ (forall s extra : bitstring, List.length s = 24%nat ->
        QuantumChenWu.split_shares (s ++ extra) = QuantumChenWu.split_shares s)
  /\ (forall s : bitstring, (17 <= List.length s)%nat ->
        exists t, QuantumChenWu.split_shares s = Ok t)
  /\ (forall s : bitstring, (List.length s <= 16)%nat ->
        QuantumChenWu.split_shares s = Raise ValueError).
Proof.
  split; [| split; [| split; [| split]]].
  - intros s Hs. split; [now apply int_base2_value |].
    intro k. now apply int_base2_zeros.
  - reflexivity.
  - intros s extra Hl. unfold QuantumChenWu.split_shares.
    now rewrite !slice_app by lia.
  - intros s Hl. unfold QuantumChenWu.split_shares.
    rewrite (int_base2_value (slice s 16 24)) by (apply slice_nonempty; lia).
    rewrite (int_base2_value (slice s 8 16)) by (apply slice_nonempty; lia).
    rewrite (int_base2_value (slice s 0 8)) by (apply slice_nonempty; lia).
    cbn [bind]. eauto.
  - intros s Hl. unfold QuantumChenWu.split_shares.
    replace (slice s 16 24) with (@nil bool); [reflexivity |].
    unfold slice. rewrite skipn_all2 by lia. reflexivity.
Qed.

Lemma outcome_length_unchecked_witness :
  int_base2 [true; false; true] = Ok 5
  /\ QuantumChenWu.split_shares (repeat true 24 ++ [false])
     = QuantumChenWu.split_shares (repeat true 24)
  /\ (exists t, QuantumChenWu.split_shares (repeat true 17) = Ok t)
  /\ QuantumChenWu.split_shares (repeat true 16) = Raise ValueError.
Proof.
  split; [| split; [| split]].
  - apply (proj1 (proj1 outcome_length_unchecked [true; false; true]
                    ltac:(discriminate))).
  - apply (proj1 (proj2 (proj2 outcome_length_unchecked))). reflexivity.
  - apply (proj1 (proj2 (proj2 (proj2 outcome_length_unchecked)))).
    cbn. lia.
  - apply (proj2 (proj2 (proj2 (proj2 outcome_length_unchecked)))).
    cbn. lia.
Defined.

(** C7 as stated fails: a key of three digits is decoded to a value, and a
    key of 25 digits is split into three values. *)
Lemma wrong_length_is_accepted :
  List.length [true; false; true] <> 8%nat
  /\ int_base2 [true; false; true] = Ok 5
  /\ List.length (repeat true 25) <> 24%nat
  /\ QuantumChenWu.split_shares (repeat true 25) = Ok (255, 255, 255).
Proof.
  split; [discriminate |]. split; [reflexivity |].
  split; [discriminate | reflexivity].
Qed.

(** C8. For secrets of 0..255 the measured cells of the sharing circuit
    are the 24 cells of S0, B0 and Sn, in that order, and no measurement
    has a cell of G0 or G1 as its target. *)
Theorem secrets_are_not_measured (g0 g1 : Z) :
  0 <= g0 <= 255 -> 0 <= g1 <= 255 ->
  exists qc : QuantumCircuit,
    QuantumChenWu.build_sharing_circuit g0 g1 = Ok qc
    /\ measured_cells (data qc) = qbits_of S0 ++ qbits_of B0 ++ qbits_of Sn
    /\ List.length (measured_cells (data qc)) = 24%nat
    /\ (forall (q : Qubit) (c : Clbit),
          In (Measure q c) (data qc) ->
          qreg q <> "g0" /\ qreg q <> "g1"
          /\ (qreg q = "s0" \/ qreg q = "b0" \/ qreg q = "sn")).
Proof.
  intros H0 H1. exists (sharing_circuit (sharing_sequence g0 g1)).
  split; [now apply build_sharing_circuit_in_range |].
  assert (Hm : measured_cells (data (sharing_circuit (sharing_sequence g0 g1)))
               = qbits_of S0 ++ qbits_of B0 ++ qbits_of Sn).
  { cbn [data sharing_circuit]. unfold sharing_sequence.
    rewrite !measured_cells_app, !measured_cells_encoding. reflexivity. }
  split; [exact Hm |]. split; [rewrite Hm; reflexivity |].
  intros q c Hin. apply in_measured_cells in Hin. rewrite Hm in Hin.
  rewrite !in_app_iff in Hin. unfold qbits_of in Hin.
  rewrite !in_map_iff in Hin.
  destruct Hin as [[i [E _]] | [[i [E _]] | [i [E _]]]]; subst q;
    cbn [qgetitem qreg qname S0 B0 Sn];
    (split; [discriminate |]); (split; [discriminate |]); tauto.
Qed.

Lemma secrets_are_not_measured_witness :
  0 <= 200 <= 255 /\ 0 <= 55 <= 255
  /\ exists qc : QuantumCircuit,
      QuantumChenWu.build_sharing_circuit 200 55 = Ok qc
      /\ List.length (measured_cells (data qc)) = 24%nat.
Proof.
  split; [lia |]. split; [lia |].
  destruct (secrets_are_not_measured 200 55 ltac:(lia) ltac:(lia))
    as [qc [Hqc [_ [Hl _]]]].
  exists qc. split; [exact Hqc | exact Hl].
Defined.

(** C9. For secrets of 0..255, every XOR of the sharing circuit has a
    source different from its destination and a destination in B0 or Sn;
    the XORs into cell [i] of B0 are two, from cell [i] of G1 and then from
    cell [i] of S0; those into cell [i] of Sn are two, from cell [i] of G0
    and then from cell [i] of B0; and no XOR follows any measurement, so a
    cell has received all it accumulates when it is measured. *)
Theorem xor_steps_discipline (g0 g1 : Z) :
  0 <= g0 <= 255 -> 0 <= g1 <= 255 ->
  exists qc : QuantumCircuit,
    QuantumChenWu.build_sharing_circuit g0 g1 = Ok qc
    /\ (forall c t : Qubit,
          In (CXGate c t) (data qc) ->
          c <> t /\ (qreg t = "b0" \/ qreg t = "sn") /\ (qidx t < 8)%nat)
    /\ (forall i : nat, (i < 8)%nat ->
          xor_sources (qgetitem B0 i) (data qc) = [qgetitem G1 i; qgetitem S0 i]
          /\ xor_sources (qgetitem Sn i) (data qc)
             = [qgetitem G0 i; qgetitem B0 i])
    /\ (forall (pre post : list Instruction) (q : Qubit) (cl : Clbit),
          data qc = pre ++ Measure q cl :: post ->
          forall c t : Qubit, ~ In (CXGate c t) post).
Proof.
  intros H0 H1. exists (sharing_circuit (sharing_sequence g0 g1)).
  split; [now apply build_sharing_circuit_in_range |].
  cbn [data sharing_circuit]. split; [| split].
  - intros c t Hin. unfold sharing_sequence, sharing_tail in Hin.
    assert (Hx : In (CXGate c t) (b0_step ++ sn_step)).
    { rewrite !in_app_iff in Hin. rewrite in_app_iff.
      destruct Hin as [H | [H | [H | [H | [H | H]]]]].
      - apply in_encoding_subsequence in H. destruct H as [i [_ E]]. discriminate.
      - apply in_encoding_subsequence in H. destruct H as [i [_ E]]. discriminate.
      - unfold randomize_step in H. apply in_map_iff in H.
        destruct H as [i [E _]]. discriminate.
      - now left.
      - now right.
      - apply measure_step_only_measures in H. destruct H as [q [cl E]].
        discriminate. }
    apply in_xor_steps in Hx. destruct Hx as [i [Hi Hc]].
    destruct Hc as [[-> ->] | [[-> ->] | [[-> ->] | [-> ->]]]];
      cbn [qgetitem qreg qidx qname B0 Sn];
      (split; [discriminate |]); (split; [tauto | exact Hi]).
  - intros i Hi. unfold sharing_sequence.
    rewrite !xor_sources_app, !xor_sources_encoding. cbn [app].
    do 8 (destruct i as [| i]; [split; reflexivity |]). lia.
  - intros pre post q cl E c t Hin.
    unfold sharing_sequence, sharing_tail in E.
    assert (E' : (encoding_subsequence G0 g0 ++ encoding_subsequence G1 g1
                  ++ randomize_step ++ b0_step ++ sn_step) ++ measure_step
                 = pre ++ Measure q cl :: post)
      by (rewrite <- E; now rewrite <- !app_assoc).
    apply split_in_back in E'; [| apply no_measure_before_measure_step].
    destruct E' as [mid Em].
    assert (Hm : In (CXGate c t) measure_step)
      by (rewrite Em; apply in_or_app; right; now right).
    apply measure_step_only_measures in Hm. destruct Hm as [q' [c' Eq]].
    discriminate.
Qed.

Lemma xor_steps_discipline_witness :
  0 <= 200 <= 255 /\ 0 <= 55 <= 255
  /\ exists qc : QuantumCircuit,
      QuantumChenWu.build_sharing_circuit 200 55 = Ok qc
      /\ xor_sources (qgetitem B0 3) (data qc) = [qgetitem G1 3; qgetitem S0 3].
Proof.
  split; [lia |]. split; [lia |].
  destruct (xor_steps_discipline 200 55 ltac:(lia) ltac:(lia))
    as [qc [Hqc [_ [Hx _]]]].
  exists qc. split; [exact Hqc |]. apply (proj1 (Hx 3%nat ltac:(lia))).
Defined.

(** C10. For secrets of 0..255 the sharing circuit has the five 8-cell
    registers g0, g1, s0, b0, sn, in this order, 40 cells in all, and the
    one classical register of 24 bits, whatever the secrets. *)
Theorem sharing_circuit_shape (g0 g1 : Z) :
  0 <= g0 <= 255 -> 0 <= g1 <= 255 ->
  exists qc : QuantumCircuit,
    QuantumChenWu.build_sharing_circuit g0 g1 = Ok qc
    /\ qregs qc = [ {| qsize := 8; qname := "g0" |};
                    {| qsize := 8; qname := "g1" |};
                    {| qsize := 8; qname := "s0" |};
                    {| qsize := 8; qname := "b0" |};
                    {| qsize := 8; qname := "sn" |} ]
    /\ cregs qc = [ {| csize := 24; cname := "measure" |} ]
    /\ num_qubits qc = 40%nat
    /\ num_clbits qc = 24%nat.
Proof.
  intros H0 H1. exists (sharing_circuit (sharing_sequence g0 g1)).
  split; [now apply build_sharing_circuit_in_range |].
  repeat split.
Qed.

Lemma sharing_circuit_shape_witness :
  0 <= 0 <= 255 /\ 0 <= 255 <= 255
  /\ exists qc : QuantumCircuit,
      QuantumChenWu.build_sharing_circuit 0 255 = Ok qc
      /\ num_qubits qc = 40%nat /\ num_clbits qc = 24%nat.
Proof.
  split; [lia |]. split; [lia |].
  destruct (sharing_circuit_shape 0 255 ltac:(lia) ltac:(lia))
    as [qc [Hqc [_ [_ [Hq Hc]]]]].
  exists qc. split; [exact Hqc |]. split; [exact Hq | exact Hc].
Defined.

(** ** Further properties of the two programs *)

Lemma same_gates_eq (a b : list Instruction) : same_gates a b = true -> a = b.
Proof.
  unfold same_gates.
  destruct (list_eq_dec Instruction_eq_dec a b); [trivial | discriminate].
Qed.

Lemma lxor_byte (a b : Z) :
  0 <= a <= 255 -> 0 <= b <= 255 -> 0 <= Z.lxor a b <= 255.
Proof.
  intros Ha Hb.
  assert (H : ((0 <=? Z.lxor a b) && (Z.lxor a b <=? 255))%bool = true).
  { apply (Z_range_forall (fun b => (0 <=? Z.lxor a b) && (Z.lxor a b <=? 255))%bool
             0 256); [| lia].
    apply (Z_range_forall
             (fun a => forallb (fun b => (0 <=? Z.lxor a b)
                                         && (Z.lxor a b <=? 255))%bool
                               (Z_range 0 256)) 0 256);
      [vm_compute; reflexivity | lia]. }
  apply andb_true_iff in H. destruct H as [H1 H2].
  apply Z.leb_le in H1, H2. lia.
Qed.

(** X1. Two intensities of 0..255 that get the same circuit are equal. *)
Theorem encode_is_injective (v1 v2 : Z) :
  0 <= v1 <= 255 -> 0 <= v2 <= 255 ->
  encode_pixel_intensity v1 = encode_pixel_intensity v2 -> v1 = v2.
Proof.
  intros H1 H2 E.
  rewrite (encode_pixel_intensity_in_range v1 H1),
          (encode_pixel_intensity_in_range v2 H2) in E.
  injection E as E.
  pose proof (shot_encode (fun _ => false) v1 H1) as S1.
  pose proof (shot_encode (fun _ => false) v2 H2) as S2.
  rewrite E, S2 in S1.
  apply (f_equal (@rev bool)) in S1. rewrite !rev_involutive in S1.
  rewrite <- (bits_to_Z_to_bits v1 H1), <- (bits_to_Z_to_bits v2 H2).
  now rewrite S1.
Qed.

Lemma encode_is_injective_witness :
  0 <= 170 <= 255
  /\ encode_pixel_intensity 170 = encode_pixel_intensity (85 + 85)
  /\ 170 = 85 + 85.
Proof.
  split; [lia |]. split; [reflexivity |].
  apply (encode_is_injective 170 (85 + 85)); [lia | lia | reflexivity].
Defined.

(** X2. The verification program, for any positive number of shots: on a
    sample of 0..255 it recovers the sample and reports a match; on a
    sample of -255..-1 it recovers the magnitude and reports no match; on
    any other sample it stops with the circuit's index error. *)
Theorem neqr_main_verdict (rnd : nat -> oracle) (v : Z) (shots : nat) :
  (1 <= shots)%nat ->
  (0 <= v <= 255 -> NEQR_Processor.main rnd v shots = Ok (v, true))
  /\ (-255 <= v <= -1 -> NEQR_Processor.main rnd v shots = Ok (- v, false))
  /\ (256 <= Z.abs v -> NEQR_Processor.main rnd v shots = Raise CircuitError).
Proof.
  intro Hs.
  assert (Hrun : forall w, 0 <= w <= 255 ->
            first_key (NEQR_Processor.run_simulation rnd
                         {| qregs := [q8]; cregs := [c8];
                            data := encode_sequence w |} shots)
            = Ok (rev (Z_to_bits w))).
  { intros w Hw. destruct shots as [| n]; [lia |].
    unfold NEQR_Processor.run_simulation.
    rewrite (get_counts_single rnd _ (rev (Z_to_bits w)));
      [reflexivity | intro r; now apply shot_encode]. }
  assert (Hint : forall w, 0 <= w <= 255 -> int_base2 (rev (Z_to_bits w)) = Ok w).
  { intros w Hw. rewrite int_base2_rev by discriminate. f_equal.
    now apply bits_to_Z_to_bits. }
  split; [| split]; intro Hv; unfold NEQR_Processor.main.
  - rewrite (encode_pixel_intensity_in_range v Hv). cbn [bind].
    rewrite (Hrun v Hv). cbn [bind]. rewrite (Hint v Hv). cbn [bind].
    now rewrite Z.eqb_refl.
  - rewrite (encode_pixel_intensity_negative v Hv).
    rewrite (encode_pixel_intensity_in_range (- v)) by lia. cbn [bind].
    rewrite (Hrun (- v)) by lia. cbn [bind].
    rewrite (Hint (- v)) by lia. cbn [bind].
    replace (- v =? v) with false by (symmetry; apply Z.eqb_neq; lia).
    reflexivity.
  - now rewrite (encode_pixel_intensity_wide v Hv).
Qed.

Lemma neqr_main_verdict_witness :
  (1 <= 64)%nat
  /\ NEQR_Processor.main (fun _ _ => true) 170 64 = Ok (170, true)
  /\ NEQR_Processor.main (fun _ _ => true) (-3) 64 = Ok (3, false)
  /\ NEQR_Processor.main (fun _ _ => true) 300 64 = Raise CircuitError.
Proof.
  split; [lia |].
  pose proof (neqr_main_verdict (fun _ _ => true) 170 64 ltac:(lia)) as H1.
  pose proof (neqr_main_verdict (fun _ _ => true) (-3) 64 ltac:(lia)) as H2.
  pose proof (neqr_main_verdict (fun _ _ => true) 300 64 ltac:(lia)) as H3.
  split; [apply (proj1 H1); lia |].
  split; [apply (proj1 (proj2 H2)); lia |].
  apply (proj2 (proj2 H3)). cbn. lia.
Defined.

Lemma bitstring_eqb_neq (a b : bitstring) : bitstring_eqb a b = false -> a <> b.
Proof. intros H E. subst b. now rewrite bitstring_eqb_refl in H. Qed.








(** X4. For an intensity of 0..255 the encoder's circuit has one SET gate
    per 1 bit of the intensity, no RANDOMIZE and no XOR, and exactly eight
    measurements: between 8 and 16 gates in all. *)
Theorem encode_gate_census (v : Z) :
  0 <= v <= 255 ->
  exists qc : QuantumCircuit,
    encode_pixel_intensity v = Ok qc
    /\ List.length (filter is_set (data qc)) = popcount v
    /\ filter is_randomize (data qc) = []
    /\ filter is_xor (data qc) = []
    /\ List.length (filter is_measure (data qc)) = 8%nat
    /\ List.length (data qc) = (popcount v + 8)%nat
    /\ (8 <= List.length (data qc) <= 16)%nat.
Proof.
  intro Hv.
  exists {| qregs := [q8]; cregs := [c8]; data := encode_sequence v |}.
  split; [now apply encode_pixel_intensity_in_range |]. cbn [data].
  assert (Hall :
    (Nat.eqb (List.length (filter is_set (encode_sequence v))) (popcount v)
     && same_gates (filter is_randomize (encode_sequence v)) []
     && same_gates (filter is_xor (encode_sequence v)) []
     && Nat.eqb (List.length (filter is_measure (encode_sequence v))) 8
     && Nat.eqb (List.length (encode_sequence v)) (popcount v + 8)
     && Nat.leb (List.length (encode_sequence v)) 16)%bool = true).
  { apply (Z_range_forall
      (fun v =>
         (Nat.eqb (List.length (filter is_set (encode_sequence v))) (popcount v)
          && same_gates (filter is_randomize (encode_sequence v)) []
          && same_gates (filter is_xor (encode_sequence v)) []
          && Nat.eqb (List.length (filter is_measure (encode_sequence v))) 8
          && Nat.eqb (List.length (encode_sequence v)) (popcount v + 8)
          && Nat.leb (List.length (encode_sequence v)) 16)%bool) 0 256);
      [vm_compute; reflexivity | lia]. }
  repeat (apply andb_true_iff in Hall; destruct Hall as [Hall ?]).
  repeat match goal with
         | H : Nat.eqb _ _ = true |- _ => apply Nat.eqb_eq in H
         | H : Nat.leb _ _ = true |- _ => apply Nat.leb_le in H
         | H : same_gates _ _ = true |- _ => apply same_gates_eq in H
         end.
  repeat split; try assumption; lia.
Qed.

Lemma encode_gate_census_witness :
  0 <= 170 <= 255
  /\ exists qc : QuantumCircuit,
      encode_pixel_intensity 170 = Ok qc /\ List.length (data qc) = 12%nat.
Proof.
  split; [lia |].
  destruct (encode_gate_census 170 ltac:(lia)) as [qc [Hqc [_ [_ [_ [_ [Hl _]]]]]]].
  exists qc. split; [exact Hqc |]. rewrite Hl. reflexivity.
Defined.

Lemma int_base2_byte (s : bitstring) (v : Z) :
  (List.length s <= 8)%nat -> int_base2 s = Ok v -> 0 <= v <= 255.
Proof.
  intros Hl E. destruct s as [| b s]; [discriminate |].
  rewrite int_base2_value in E by discriminate. injection E as <-.
  pose proof (bits_to_Z_bound (rev (b :: s))) as Hb.
  rewrite length_rev in Hb.
  assert (2 ^ Z.of_nat (List.length (b :: s)) <= 2 ^ 8)
    by (apply Z.pow_le_mono_r; lia).
  change (2 ^ 8) with 256 in *. cbn [rev] in Hb. lia.
Qed.

Lemma slice_length {A : Type} (s : list A) (a b : nat) :
  (List.length (slice s a b) <= b - a)%nat.
Proof. unfold slice. rewrite length_firstn. lia. Qed.

(** X5. Whatever the key, of whatever length, the three values that the
    outcome split returns are bytes. *)
Theorem split_shares_bytes (raw_bits : bitstring) (s0 b0 sn : Z) :
  QuantumChenWu.split_shares raw_bits = Ok (s0, b0, sn) ->
  0 <= s0 <= 255 /\ 0 <= b0 <= 255 /\ 0 <= sn <= 255.
Proof.
  unfold QuantumChenWu.split_shares. intro E.
  destruct (int_base2 (slice raw_bits 16 24)) as [v0 |] eqn:E0; [| discriminate].
  destruct (int_base2 (slice raw_bits 8 16)) as [v1 |] eqn:E1; [| discriminate].
  destruct (int_base2 (slice raw_bits 0 8)) as [v2 |] eqn:E2; [| discriminate].
  cbn [bind] in E. injection E as <- <- <-.
  split; [| split].
  - apply (int_base2_byte (slice raw_bits 16 24)); [apply slice_length | exact E0].
  - apply (int_base2_byte (slice raw_bits 8 16)); [apply slice_length | exact E1].
  - apply (int_base2_byte (slice raw_bits 0 8)); [apply slice_length | exact E2].
Qed.

Lemma split_shares_bytes_witness :
  QuantumChenWu.split_shares (repeat true 30) = Ok (255, 255, 255)
  /\ 0 <= 255 <= 255.
Proof.
  split; [reflexivity |].
  apply (split_shares_bytes (repeat true 30) 255 255 255). reflexivity.
Defined.

Lemma lxor_cancel_both (a b d s : Z) :
  Z.lxor (Z.lxor a d) (Z.lxor (Z.lxor b d) s) = Z.lxor a (Z.lxor b s).
Proof.
  apply Z.bits_inj'. intros n _. rewrite !Z.lxor_spec.
  destruct (Z.testbit a n), (Z.testbit b n), (Z.testbit d n), (Z.testbit s n);
    reflexivity.
Qed.

(** X6. The shares S0 and B0 of a run do not depend on the first secret:
    under the same coins, two runs that differ only in [g0] give the same
    S0 and the same B0. *)
Theorem s0_b0_ignore_g0 (rnd : nat -> oracle) (g0 g0' g1 : Z) :
  0 <= g0 <= 255 -> 0 <= g0' <= 255 -> 0 <= g1 <= 255 ->
  exists sh sh' : shares,
    QuantumChenWu.main rnd g0 g1 = Ok sh
    /\ QuantumChenWu.main rnd g0' g1 = Ok sh'
    /\ s0_val sh = s0_val sh'
    /\ b0_val sh = b0_val sh'.
Proof.
  intros H0 H0' H1.
  rewrite (main_sharing rnd g0 g1 H0 H1), (main_sharing rnd g0' g1 H0' H1).
  do 2 eexists. repeat split.
Qed.

Lemma s0_b0_ignore_g0_witness :
  0 <= 200 <= 255 /\ 0 <= 7 <= 255 /\ 0 <= 55 <= 255
  /\ exists sh sh' : shares,
      QuantumChenWu.main (forced_s0 85) 200 55 = Ok sh
      /\ QuantumChenWu.main (forced_s0 85) 7 55 = Ok sh'
      /\ s0_val sh = s0_val sh'
      /\ b0_val sh = b0_val sh'.
Proof.
  split; [lia |]. split; [lia |]. split; [lia |].
  apply (s0_b0_ignore_g0 (forced_s0 85) 200 7 55); lia.
Defined.

(** X7. The shares S0 and Sn of a run depend on the secrets only through
    [g0 XOR g1]: under the same coins, flipping the same bits [d] in both
    secrets leaves S0 and Sn unchanged, so these two shares alone do not
    tell the secrets. *)
Theorem s0_sn_ignore_common_flip (rnd : nat -> oracle) (g0 g1 d : Z) :
  0 <= g0 <= 255 -> 0 <= g1 <= 255 -> 0 <= d <= 255 ->
  exists sh sh' : shares,
    QuantumChenWu.main rnd g0 g1 = Ok sh
    /\ QuantumChenWu.main rnd (Z.lxor g0 d) (Z.lxor g1 d) = Ok sh'
    /\ s0_val sh = s0_val sh'
    /\ sn_val sh = sn_val sh'.
Proof.
  intros H0 H1 Hd.
  rewrite (main_sharing rnd g0 g1 H0 H1).
  rewrite (main_sharing rnd (Z.lxor g0 d) (Z.lxor g1 d))
    by (apply lxor_byte; assumption).
  do 2 eexists. split; [reflexivity |]. split; [reflexivity |].
  cbn [s0_val sn_val]. split; [reflexivity |].
  symmetry. apply lxor_cancel_both.
Qed.

Lemma s0_sn_ignore_common_flip_witness :
  0 <= 200 <= 255 /\ 0 <= 55 <= 255 /\ 0 <= 255 <= 255
  /\ exists sh sh' : shares,
      QuantumChenWu.main (forced_s0 85) 200 55 = Ok sh
      /\ QuantumChenWu.main (forced_s0 85) (Z.lxor 200 255) (Z.lxor 55 255)
         = Ok sh'
      /\ s0_val sh = s0_val sh'
      /\ sn_val sh = sn_val sh'.
Proof.
  split; [lia |]. split; [lia |]. split; [lia |].
  apply (s0_sn_ignore_common_flip (forced_s0 85) 200 55 255); lia.
Defined.

(** X8. A single derived share fits every pair of secrets: for secrets of
    0..255 and any byte [t], exactly one value of the randomised byte,
    [g1 XOR t], makes B0 read [t], and exactly one, [g0 XOR g1 XOR t], makes
    Sn read [t]. *)
Theorem single_share_fits_any_secret (g0 g1 t s0 : Z) :
  0 <= g0 <= 255 -> 0 <= g1 <= 255 -> 0 <= t <= 255 -> 0 <= s0 <= 255 ->
  exists sh : shares,
    QuantumChenWu.main (forced_s0 s0) g0 g1 = Ok sh
    /\ (b0_val sh = t <-> s0 = Z.lxor g1 t)
    /\ (sn_val sh = t <-> s0 = Z.lxor g0 (Z.lxor g1 t))
    /\ 0 <= Z.lxor g1 t <= 255
    /\ 0 <= Z.lxor g0 (Z.lxor g1 t) <= 255.
Proof.
  intros H0 H1 Ht Hs.
  rewrite (main_sharing _ g0 g1 H0 H1), (realized_forced s0 Hs).
  eexists. split; [reflexivity |]. cbn [b0_val sn_val].
  assert (Hinv : forall a b c, Z.lxor a b = c <-> b = Z.lxor a c).
  { intros a b c. split; [intros <- | intros ->];
      now rewrite <- Z.lxor_assoc, Z.lxor_nilpotent, Z.lxor_0_l. }
  split; [apply Hinv |]. split.
  - rewrite Hinv, (Hinv g1 s0).
    replace (Z.lxor g1 (Z.lxor g0 t)) with (Z.lxor g0 (Z.lxor g1 t));
      [reflexivity |].
    now rewrite <- !Z.lxor_assoc, (Z.lxor_comm g0 g1).
  - split; repeat apply lxor_byte; assumption.
Qed.

Lemma single_share_fits_any_secret_witness :
  0 <= 200 <= 255 /\ 0 <= 55 <= 255 /\ 0 <= 0 <= 255 /\ 0 <= 55 <= 255
  /\ exists sh : shares,
      QuantumChenWu.main (forced_s0 55) 200 55 = Ok sh /\ b0_val sh = 0.
Proof.
  split; [lia |]. split; [lia |]. split; [lia |]. split; [lia |].
  destruct (single_share_fits_any_secret 200 55 0 55
              ltac:(lia) ltac:(lia) ltac:(lia) ltac:(lia))
    as [sh [Hsh [Hb _]]].
  exists sh. split; [exact Hsh |]. apply (proj2 Hb). reflexivity.
Defined.

Lemma writers_app (q : Qubit) (a b : list Instruction) :
  writers q (a ++ b) = writers q a ++ writers q b.
Proof. unfold writers. apply filter_app. Qed.

Lemma writers_encoding_other (q : Qubit) (r : QuantumRegister) (v : Z) :
  qreg q <> qname r -> writers q (encoding_subsequence r v) = [].
Proof.
  intro Hne. unfold encoding_subsequence, writers.
  induction (filter (fun i => natural_digit_is_1 v (7 - i)) (range 8))
    as [| j l IH]; [reflexivity |].
  cbn [map filter writes]. unfold Qubit_eqb at 1. cbn [qgetitem qreg qidx].
  replace (String.eqb (qname r) (qreg q)) with false; [exact IH |].
  symmetry. apply String.eqb_neq. congruence.
Qed.

Lemma writers_encoding_same (r : QuantumRegister) (v : Z) (i : nat) :
  r = G0 \/ r = G1 -> 0 <= v <= 255 -> (i < 8)%nat ->
  writers (qgetitem r i) (encoding_subsequence r v)
  = if Z.testbit v (Z.of_nat i) then [XGate (qgetitem r i)] else [].
Proof.
  intros Hr Hv Hi.
  assert (Hall : forallb
            (fun i => same_gates
                        (writers (qgetitem r i) (encoding_subsequence r v))
                        (if Z.testbit v (Z.of_nat i)
                         then [XGate (qgetitem r i)] else []))
            (range 8) = true).
  { destruct Hr; subst r;
      apply (Z_range_forall
               (fun v => forallb
                  (fun i => same_gates
                              (writers (qgetitem _ i) (encoding_subsequence _ v))
                              (if Z.testbit v (Z.of_nat i)
                               then [XGate (qgetitem _ i)] else []))
                  (range 8)) 0 256);
      try (vm_compute; reflexivity); lia. }
  rewrite forallb_forall in Hall. apply same_gates_eq. apply Hall.
  apply in_seq. lia.
Qed.

(** X9. In the sharing circuit for secrets of 0..255, the only gate that
    ever writes cell [i] of a secret register is the SET that prepares it
    (present exactly when bit [i] of the secret is 1), the only gate that
    writes cell [i] of S0 is its one RANDOMIZE, and the cells of B0 and Sn
    are written by their two XORs and nothing else. *)
Theorem cells_written_once (g0 g1 : Z) (i : nat) :
  0 <= g0 <= 255 -> 0 <= g1 <= 255 -> (i < 8)%nat ->
  exists qc : QuantumCircuit,
    QuantumChenWu.build_sharing_circuit g0 g1 = Ok qc
    /\ writers (qgetitem G0 i) (data qc)
       = (if Z.testbit g0 (Z.of_nat i) then [XGate (qgetitem G0 i)] else [])
    /\ writers (qgetitem G1 i) (data qc)
       = (if Z.testbit g1 (Z.of_nat i) then [XGate (qgetitem G1 i)] else [])
    /\ writers (qgetitem S0 i) (data qc) = [HGate (qgetitem S0 i)]
    /\ writers (qgetitem B0 i) (data qc)
       = [CXGate (qgetitem G1 i) (qgetitem B0 i);
          CXGate (qgetitem S0 i) (qgetitem B0 i)]
    /\ writers (qgetitem Sn i) (data qc)
       = [CXGate (qgetitem G0 i) (qgetitem Sn i);
          CXGate (qgetitem B0 i) (qgetitem Sn i)].
Proof.
  intros H0 H1 Hi. exists (sharing_circuit (sharing_sequence g0 g1)).
  split; [now apply build_sharing_circuit_in_range |].
  cbn [data sharing_circuit]. unfold sharing_sequence.
  rewrite !writers_app.
  rewrite (writers_encoding_same G0 g0 i) by (auto; lia).
  rewrite (writers_encoding_same G1 g1 i) by (auto; lia).
  rewrite !writers_encoding_other by (cbn; discriminate).
  do 8 (destruct i as [| i];
        [repeat split; try reflexivity; apply app_nil_r |]).
  lia.
Qed.

Lemma cells_written_once_witness :
  0 <= 200 <= 255 /\ 0 <= 55 <= 255 /\ (3 < 8)%nat
  /\ exists qc : QuantumCircuit,
      QuantumChenWu.build_sharing_circuit 200 55 = Ok qc
      /\ writers (qgetitem G0 3) (data qc) = [XGate (qgetitem G0 3)]
      /\ writers (qgetitem S0 3) (data qc) = [HGate (qgetitem S0 3)].
Proof.
  split; [lia |]. split; [lia |]. split; [lia |].
  destruct (cells_written_once 200 55 3 ltac:(lia) ltac:(lia) ltac:(lia))
    as [qc [Hqc [Hg [_ [Hs _]]]]].
  exists qc. split; [exact Hqc |]. split; [exact Hg | exact Hs].
Defined.

Lemma split_after_front {A : Type} (front back pre post : list A) (a : A) :
  front ++ back = pre ++ a :: post -> ~ In a front ->
  exists mid, pre = front ++ mid /\ back = mid ++ a :: post.
Proof.
  revert pre. induction front as [| f front IH]; intros pre E Hn.
  - exists pre. split; [reflexivity | exact E].
  - destruct pre as [| p pre]; cbn in E; injection E as E1 E2.
    + subst f. exfalso. apply Hn. now left.
    + subst p. destruct (IH pre E2) as [mid [Hp Hb]].
      * intro Hin. apply Hn. now right.
      * exists mid. split; [cbn; now rewrite Hp | exact Hb].
Qed.

(** X10. In the sharing circuit for secrets of 0..255, a cell of B0 is used
    as the source of an XOR only after both XORs into it have been
    appended: in front of every XOR with source [B0[i]] the XORs into
    [B0[i]] are already the two from [G1[i]] and [S0[i]], and the
    destination is [Sn[i]]. *)
Theorem b0_complete_before_read (g0 g1 : Z) :
  0 <= g0 <= 255 -> 0 <= g1 <= 255 ->
  exists qc : QuantumCircuit,
    QuantumChenWu.build_sharing_circuit g0 g1 = Ok qc
    /\ forall (pre post : list Instruction) (i : nat) (t : Qubit),
        data qc = pre ++ CXGate (qgetitem B0 i) t :: post ->
        (i < 8)%nat
        /\ t = qgetitem Sn i
        /\ xor_sources (qgetitem B0 i) pre = [qgetitem G1 i; qgetitem S0 i].
Proof.
  intros H0 H1. exists (sharing_circuit (sharing_sequence g0 g1)).
  split; [now apply build_sharing_circuit_in_range |].
  cbn [data sharing_circuit]. intros pre post i t E.
  unfold sharing_sequence, sharing_tail in E.
  assert (E' : (encoding_subsequence G0 g0 ++ encoding_subsequence G1 g1
                ++ randomize_step ++ b0_step) ++ (sn_step ++ measure_step)
               = pre ++ CXGate (qgetitem B0 i) t :: post)
    by (rewrite <- E; now rewrite <- !app_assoc).
  apply split_after_front in E'.
  - destruct E' as [mid [Hpre Hback]].
    assert (Hin : In (CXGate (qgetitem B0 i) t) (b0_step ++ sn_step)).
    { apply in_or_app. right.
      assert (Hb : In (CXGate (qgetitem B0 i) t) (sn_step ++ measure_step))
        by (rewrite Hback; apply in_or_app; right; now left).
      apply in_app_iff in Hb. destruct Hb as [Hb | Hb]; [exact Hb |].
      apply measure_step_only_measures in Hb. destruct Hb as [q [c Eq]].
      discriminate. }
    apply in_xor_steps in Hin. destruct Hin as [j [Hj Hc]].
    assert (Hij : j = i /\ t = qgetitem Sn i).
    { destruct Hc as [[Ec Et] | [[Ec Et] | [[Ec Et] | [Ec Et]]]];
        try discriminate Ec.
      injection Ec as Ec. subst j. split; [reflexivity | exact Et]. }
    destruct Hij as [-> ->]. split; [exact Hj |]. split; [reflexivity |].
    assert (Hmid : xor_sources (qgetitem B0 i) mid = []).
    { assert (Hb : xor_sources (qgetitem B0 i) (sn_step ++ measure_step) = [])
        by reflexivity.
      rewrite Hback, xor_sources_app in Hb.
      now apply app_eq_nil in Hb. }
    rewrite Hpre, !xor_sources_app, !xor_sources_encoding, Hmid.
    cbn [app]. rewrite app_nil_r.
    clear - Hj. do 8 (destruct i as [| i]; [reflexivity |]). lia.
  - rewrite !in_app_iff. unfold randomize_step, b0_step.
    rewrite in_map_iff, in_flat_map.
    intros [H | [H | [[j [Ej _]] | [j [_ H]]]]].
    + apply in_encoding_subsequence in H. destruct H as [j [_ Ej]]. discriminate.
    + apply in_encoding_subsequence in H. destruct H as [j [_ Ej]]. discriminate.
    + discriminate.
    + cbn in H. destruct H as [H | [H | []]]; discriminate.
Qed.

Lemma b0_complete_before_read_witness :
  0 <= 200 <= 255 /\ 0 <= 55 <= 255
  /\ exists qc : QuantumCircuit,
      QuantumChenWu.build_sharing_circuit 200 55 = Ok qc
      /\ nth_error (data qc) 33
         = Some (CXGate (qgetitem B0 0) (qgetitem Sn 0))
      /\ xor_sources (qgetitem B0 0) (firstn 33 (data qc))
         = [qgetitem G1 0; qgetitem S0 0].
Proof.
  split; [lia |]. split; [lia |].
  destruct (b0_complete_before_read 200 55 ltac:(lia) ltac:(lia))
    as [qc [Hqc Hall]].
  exists qc. pose proof Hqc as Hc. vm_compute in Hc. injection Hc as <-.
  split; [reflexivity |]. split; [reflexivity |].
  lazymatch goal with
  | |- xor_sources _ (firstn 33 ?d) = _ =>
      apply (Hall (firstn 33 d) (skipn 34 d) 0%nat (qgetitem Sn 0))
  end.
  reflexivity.
Defined.

Lemma filter_encoding (f : Instruction -> bool) (r : QuantumRegister) (v : Z) :
  (forall q, f (XGate q) = false) -> filter f (encoding_subsequence r v) = [].
Proof.
  intro Hf. unfold encoding_subsequence.
  induction (filter (fun i => natural_digit_is_1 v (7 - i)) (range 8))
    as [| j l IH]; [reflexivity |].
  cbn [map filter]. now rewrite Hf.
Qed.

Lemma encoding_subsequence_length (r : QuantumRegister) (v : Z) :
  0 <= v <= 255 ->
  List.length (filter is_set (encoding_subsequence r v)) = popcount v.
Proof.
  intro Hv. unfold encoding_subsequence.
  assert (Hs : forall l : list nat,
             filter is_set (map (fun i => XGate (qgetitem r i)) l)
             = map (fun i => XGate (qgetitem r i)) l).
  { induction l as [| j l IH]; [reflexivity |]. cbn [map filter is_set].
    now rewrite IH. }
  rewrite Hs, length_map. apply Nat.eqb_eq.
  apply (Z_range_forall
           (fun v => Nat.eqb
                       (List.length (filter (fun i => natural_digit_is_1 v (7 - i))
                                            (range 8)))
                       (popcount v)) 0 256);
    [vm_compute; reflexivity | lia].
Qed.

(** X11. The sharing circuit for secrets of 0..255 has one SET per 1 bit of
    the two secrets, 8 RANDOMIZE, 32 XOR and 24 MEASURE gates, and nothing
    else: 64 gates plus the SET gates, at most 80. *)
Theorem sharing_gate_census (g0 g1 : Z) :
  0 <= g0 <= 255 -> 0 <= g1 <= 255 ->
  exists qc : QuantumCircuit,
    QuantumChenWu.build_sharing_circuit g0 g1 = Ok qc
    /\ List.length (filter is_set (data qc)) = (popcount g0 + popcount g1)%nat
    /\ List.length (filter is_randomize (data qc)) = 8%nat
    /\ List.length (filter is_xor (data qc)) = 32%nat
    /\ List.length (filter is_measure (data qc)) = 24%nat
    /\ List.length (data qc) = (popcount g0 + popcount g1 + 64)%nat
    /\ (64 <= List.length (data qc) <= 80)%nat.
Proof.
  intros H0 H1. exists (sharing_circuit (sharing_sequence g0 g1)).
  split; [now apply build_sharing_circuit_in_range |].
  cbn [data sharing_circuit]. unfold sharing_sequence.
  assert (Hp : forall v, (popcount v <= 8)%nat).
  { intro v. unfold popcount.
    etransitivity; [apply filter_length_le |].
    unfold Z_to_bits. now rewrite length_map_range. }
  assert (Hlen : forall r v, 0 <= v <= 255 ->
             List.length (encoding_subsequence r v) = popcount v).
  { intros r v Hv. rewrite <- (encoding_subsequence_length r v Hv).
    f_equal. unfold encoding_subsequence.
    induction (filter (fun i => natural_digit_is_1 v (7 - i)) (range 8))
      as [| j l IH]; [reflexivity |]. cbn [map filter is_set]. now rewrite <- IH. }
  rewrite !filter_app, !length_app.
  rewrite !(encoding_subsequence_length _ _) by assumption.
  rewrite !(filter_encoding is_randomize), !(filter_encoding is_xor),
          !(filter_encoding is_measure) by reflexivity.
  rewrite !Hlen by assumption.
  pose proof (Hp g0). pose proof (Hp g1).
  change (List.length (filter is_set sharing_tail)) with 0%nat.
  change (List.length (filter is_randomize sharing_tail)) with 8%nat.
  change (List.length (filter is_xor sharing_tail)) with 32%nat.
  change (List.length (filter is_measure sharing_tail)) with 24%nat.
  change (List.length sharing_tail) with 64%nat.
  cbn [List.length app]. repeat split; lia.
Qed.

Lemma sharing_gate_census_witness :
  0 <= 200 <= 255 /\ 0 <= 55 <= 255
  /\ exists qc : QuantumCircuit,
      QuantumChenWu.build_sharing_circuit 200 55 = Ok qc
      /\ List.length (data qc) = 72%nat.
Proof.
  split; [lia |]. split; [lia |].
  destruct (sharing_gate_census 200 55 ltac:(lia) ltac:(lia))
    as [qc [Hqc [_ [_ [_ [_ [Hl _]]]]]]].
  exists qc. split; [exact Hqc |]. rewrite Hl. reflexivity.
Defined.

Lemma NoDup_map_injective {A B : Type} (f : A -> B) (l : list A) :
  (forall a b, f a = f b -> a = b) -> NoDup l -> NoDup (map f l).
Proof.
  intros Hf Hn. induction Hn as [| a l Ha Hl IH]; cbn [map]; constructor.
  - intro Hin. apply in_map_iff in Hin. destruct Hin as [b [E Hb]].
    apply Hf in E. now subst b.
  - exact IH.
Qed.

Lemma measured_bits_encoding (r : QuantumRegister) (v : Z) :
  measured_bits (encoding_subsequence r v) = [].
Proof.
  unfold encoding_subsequence.
  induction (filter (fun i => natural_digit_is_1 v (7 - i)) (range 8))
    as [| i l IH]; [reflexivity | exact IH].
Qed.

(** X12. In the sharing circuit for secrets of 0..255 every classical bit
    is written by exactly one measurement: the bits written are, in order,
    bits 0 to 23 of the classical register, each once, and the cell measured
    into bit [k] is cell [k mod 8] of S0, B0 or Sn for [k] in 0-7, 8-15,
    16-23. *)
Theorem classical_bits_written_once (g0 g1 : Z) :
  0 <= g0 <= 255 -> 0 <= g1 <= 255 ->
  exists qc : QuantumCircuit,
    QuantumChenWu.build_sharing_circuit g0 g1 = Ok qc
    /\ measured_bits (data qc) = clbits qc
    /\ NoDup (measured_bits (data qc))
    /\ List.length (measured_bits (data qc)) = 24%nat
    /\ (forall (q : Qubit) (c : Clbit),
          In (Measure q c) (data qc) ->
          creg c = "measure"
          /\ qidx q = (cidx c mod 8)%nat
          /\ qreg q = nth (cidx c / 8) ["s0"; "b0"; "sn"] "").
Proof.
  intros H0 H1. exists (sharing_circuit (sharing_sequence g0 g1)).
  split; [now apply build_sharing_circuit_in_range |].
  cbn [data sharing_circuit].
  assert (Hm : measured_bits (sharing_sequence g0 g1) = cbits_of c_out).
  { unfold sharing_sequence, measured_bits. rewrite !flat_map_app.
    fold (measured_bits (encoding_subsequence G0 g0)).
    fold (measured_bits (encoding_subsequence G1 g1)).
    rewrite !measured_bits_encoding. reflexivity. }
  split; [rewrite Hm; reflexivity |].
  split; [rewrite Hm; unfold cbits_of; apply NoDup_map_injective;
          [intros a b E; now injection E | apply seq_NoDup] |].
  split; [rewrite Hm; reflexivity |].
  intros q c Hin. unfold sharing_sequence, sharing_tail in Hin.
  assert (Hms : In (Measure q c) measure_step).
  { rewrite !in_app_iff in Hin.
    destruct Hin as [H | [H | [H | [H | [H | H]]]]]; [| | | | | exact H].
    - apply in_encoding_subsequence in H. destruct H as [i [_ E]]. discriminate.
    - apply in_encoding_subsequence in H. destruct H as [i [_ E]]. discriminate.
    - unfold randomize_step in H. apply in_map_iff in H.
      destruct H as [i [E _]]. discriminate.
    - unfold b0_step in H. apply in_flat_map in H. destruct H as [i [_ H]].
      cbn in H. destruct H as [H | [H | []]]; discriminate.
    - unfold sn_step in H. apply in_flat_map in H. destruct H as [i [_ H]].
      cbn in H. destruct H as [H | [H | []]]; discriminate. }
  clear Hin. cbn in Hms.
  repeat (destruct Hms as [Hms | Hms];
          [injection Hms as <- <-; repeat split |]).
  contradiction.
Qed.

Lemma classical_bits_written_once_witness :
  0 <= 200 <= 255 /\ 0 <= 55 <= 255
  /\ exists qc : QuantumCircuit,
      QuantumChenWu.build_sharing_circuit 200 55 = Ok qc
      /\ List.length (measured_bits (data qc)) = 24%nat.
Proof.
  split; [lia |]. split; [lia |].
  destruct (classical_bits_written_once 200 55 ltac:(lia) ltac:(lia))
    as [qc [Hqc [_ [_ [Hl _]]]]].
  exists qc. split; [exact Hqc | exact Hl].
Defined.

Lemma bits_to_Z_inj (l l' : list bool) :
  List.length l = List.length l' -> bits_to_Z l = bits_to_Z l' -> l = l'.
Proof.
  revert l'. induction l as [| a l IH]; intros [| b l'] Hl E;
    try discriminate; [reflexivity |].
  cbn [bits_to_Z] in E. cbn [List.length] in Hl. injection Hl as Hl.
  assert (Hab : a = b /\ bits_to_Z l = bits_to_Z l')
    by (destruct a, b; cbn [Z.b2z] in E; split; (reflexivity || lia)).
  destruct Hab as [-> Hr]. f_equal. now apply IH.
Qed.

(** X13. On keys of 24 digits the outcome split loses nothing: it returns
    three values, and two such keys with the same three values are the same
    key. *)
Theorem split_shares_injective (k1 k2 : bitstring) :
  List.length k1 = 24%nat -> List.length k2 = 24%nat ->
  (exists t, QuantumChenWu.split_shares k1 = Ok t)
  /\ (QuantumChenWu.split_shares k1 = QuantumChenWu.split_shares k2 -> k1 = k2).
Proof.
  intros L1 L2.
  assert (Hdec : forall k : bitstring, List.length k = 24%nat ->
            exists l0 l1 l2, List.length l0 = 8%nat /\ List.length l1 = 8%nat
                             /\ List.length l2 = 8%nat
                             /\ k = rev (l0 ++ l1 ++ l2)).
  { intros k Lk.
    exists (firstn 8 (rev k)), (firstn 8 (skipn 8 (rev k))), (skipn 16 (rev k)).
    repeat split.
    - rewrite length_firstn, length_rev. lia.
    - rewrite length_firstn, length_skipn, length_rev. lia.
    - rewrite length_skipn, length_rev. lia.
    - rewrite <- (rev_involutive k) at 1. f_equal.
      rewrite <- (firstn_skipn 8 (rev k)) at 1. f_equal.
      rewrite <- (firstn_skipn 8 (skipn 8 (rev k))) at 1. f_equal.
      now rewrite skipn_skipn. }
  destruct (Hdec k1 L1) as [a0 [a1 [a2 [A0 [A1 [A2 ->]]]]]].
  destruct (Hdec k2 L2) as [b0 [b1 [b2 [B0' [B1 [B2 ->]]]]]].
  rewrite !split_shares_rev by assumption. split; [eauto |].
  intro E. injection E as E0 E1 E2.
  apply bits_to_Z_inj in E0, E1, E2; try congruence.
Qed.

Lemma split_shares_injective_witness :
  List.length (repeat true 24) = 24%nat
  /\ exists t, QuantumChenWu.split_shares (repeat true 24) = Ok t.
Proof.
  split; [reflexivity |].
  apply (proj1 (split_shares_injective (repeat true 24) (repeat true 24)
                  eq_refl eq_refl)).
Defined.
